(** * Products page: sort utility, API client and URL/state synchronisation

    A shallow embedding of the product-listing application:
    - [lib/sort]: [SORT_OPTIONS], [DEFAULT_SORT], [isSortKey], [sortProducts];
    - [lib/api]: [fetchJson], [getCategories], [getProducts];
    - the products page controller: [visibleProducts],
      [writeStateToRoute], [readRouteToStateAndClean] and the two UI handlers.

    JavaScript values are modelled as follows.
    - A [number] is a rational: every finite double is one, and the sign of
      the floating difference [a - b] of two finite doubles is the sign of
      their exact difference (gradual underflow), which is all that
      [Array.prototype.sort] looks at.
    - A string is a [string] of bytes (its UTF-8 encoding).
    - [null]/[undefined] are [None].
    - A string-literal union such as [SortKey] is, at run time, a string; the
      four literals are named constants. *)

From Stdlib Require Import ZArith QArith Lqa String Ascii List Sorted Permutation Lia.
From Stdlib Require OrderedTypeEx.
From stdpp Require Import gmap strings list pretty.

Local Open Scope string_scope.

(** ** Data model ([lib/api]) *)

Definition number : Type := Q.

Record Product : Type := mkProduct {
  id : number;
  title : string;
  description : string;
  price : number;
  discountPercentage : option number;
  rating : option number;
  stock : option number;
  brand : option string;
  category : string;
  thumbnail : string;
  images : option (list string)
}.

Record ProductsResponse : Type := mkProductsResponse {
  products : list Product;
  total : number;
  skip : number;
  limit : number
}.

(** ** [Array.prototype.sort]

    The built-in sorts in place, is stable, and calls the comparator as
    [comparefn a b]: a positive result orders [a] after [b].  For a consistent
    comparator the result of a stable sort is unique, so any stable algorithm
    computes it; the embedding uses stable insertion.  The function below is
    what happens to the contents of the array. *)

Section ArraySort.
Context {A : Type}.
Variable comparefn : A -> A -> number.

Fixpoint sort_insert (a : A) (s : list A) : list A :=
  match s with
  | [] => [a]
  | b :: s' =>
      if Qle_bool (comparefn a b) 0 then a :: b :: s' else b :: sort_insert a s'
  end.

Fixpoint Array_sort (l : list A) : list A :=
  match l with
  | [] => []
  | a :: l' => sort_insert a (Array_sort l')
  end.

(** [a] and [b] are in order when the comparator does not put [a] after [b]. *)
Definition in_order (a b : A) : Prop := (comparefn a b <= 0)%Q.

(** [x] and [y] compare equal. *)
Definition ties (x y : A) : bool := Qeq_bool (comparefn x y) 0.
End ArraySort.

(** ** [Array.prototype.slice]

    Negative indices count from the end; both bounds are clamped to the
    length of the array. *)

Definition Array_slice {A : Type} (l : list A) (start end_ : Z) : list A :=
  let len := Z.of_nat (length l) in
  let k := if (start <? 0)%Z then Z.max (len + start) 0 else Z.min start len in
  let final := if (end_ <? 0)%Z then Z.max (len + end_) 0 else Z.min end_ len in
  firstn (Z.to_nat (Z.max (final - k) 0)) (skipn (Z.to_nat k) l).

(** ** Sort utility ([lib/sort]) *)

Definition SortKey : Type := string.

Record SortOption : Type := mkSortOption { value : SortKey; label : string }.

Definition SORT_OPTIONS : list SortOption :=
  [ mkSortOption "price-asc" "price - low to high";
    mkSortOption "price-desc" "price - high to low";
    mkSortOption "title-asc" "title - A to Z";
    mkSortOption "title-desc" "title - Z to A" ].

Definition DEFAULT_SORT : SortKey := "title-asc".

(** [v] is [unknown] in the source; the callers pass a string or [null]. *)
Definition isSortKey (v : option string) : bool :=
  match v with
  | Some s => existsb (fun o => String.eqb (value o) s) SORT_OPTIONS
  | None => false
  end.

(** Locations of arrays in the store, used where mutation matters. *)
Definition loc : Type := positive.

Section Collation.
(** [String.prototype.localeCompare]: the host's collation, a parameter. *)
Variable localeCompare : string -> string -> number.

(** [sortProducts]: the copy [[...items]] has the contents of [items]; each
    case sorts the copy and returns it.  A [sort] outside the four cases
    falls out of the [switch] and the function returns [undefined]. *)
Definition sortProducts (items : list Product) (sort : SortKey) : option (list Product) :=
  let copy := items in
  if String.eqb sort "price-asc" then
    Some (Array_sort (fun a b => price a - price b)%Q copy)
  else if String.eqb sort "price-desc" then
    Some (Array_sort (fun a b => price b - price a)%Q copy)
  else if String.eqb sort "title-asc" then
    Some (Array_sort (fun a b => localeCompare (title a) (title b)) copy)
  else if String.eqb sort "title-desc" then
    Some (Array_sort (fun a b => localeCompare (title b) (title a)) copy)
  else None.

(** The same function on a store of arrays, where [[...items]] allocates
    a new array and [copy.sort] updates the copy in place.  The outer
    [option] is [None] only when [items] is not an array of the store. *)
Definition array_spread (h : gmap loc (list Product)) (items : loc)
  : option (loc * gmap loc (list Product)) :=
  match h !! items with
  | Some l => let copy := fresh (dom h) in Some (copy, <[copy := l]> h)
  | None => None
  end.

Definition array_sort_in_place (comparefn : Product -> Product -> number)
    (h : gmap loc (list Product)) (a : loc) : option (gmap loc (list Product)) :=
  match h !! a with
  | Some l => Some (<[a := Array_sort comparefn l]> h)
  | None => None
  end.

Definition sortProducts_store (h : gmap loc (list Product)) (items : loc) (sort : SortKey)
  : option (option loc * gmap loc (list Product)) :=
  match array_spread h items with
  | None => None
  | Some (copy, h1) =>
      let sorting comparefn :=
        match array_sort_in_place comparefn h1 copy with
        | Some h2 => Some (Some copy, h2)
        | None => None
        end in
      if String.eqb sort "price-asc" then
        sorting (fun a b => price a - price b)%Q
      else if String.eqb sort "price-desc" then
        sorting (fun a b => price b - price a)%Q
      else if String.eqb sort "title-asc" then
        sorting (fun a b => localeCompare (title a) (title b))
      else if String.eqb sort "title-desc" then
        sorting (fun a b => localeCompare (title b) (title a))
      else Some (None, h1)
  end.

(** Page controller: sorted + top 10.  [data] is [productsQuery.data.value];
    [None] as a result is the [TypeError] of [undefined.slice]. *)
Definition visibleProducts (data : option (list Product)) (selectedSort : SortKey)
  : option (list Product) :=
  let items := default [] data in
  match sortProducts items selectedSort with
  | Some sorted => Some (Array_slice sorted 0 10)
  | None => None
  end.

(** What the specification calls "ordered by the key". *)
Definition ordered_by (sort : SortKey) (a b : Product) : Prop :=
  if String.eqb sort "price-asc" then (price a <= price b)%Q
  else if String.eqb sort "price-desc" then (price b <= price a)%Q
  else if String.eqb sort "title-asc" then (localeCompare (title a) (title b) <= 0)%Q
  else (0 <= localeCompare (title a) (title b))%Q.

(** Two products "compare equal under the key". *)
Definition same_key (sort : SortKey) (x y : Product) : bool :=
  if String.eqb sort "price-asc" then Qeq_bool (price x) (price y)
  else if String.eqb sort "price-desc" then Qeq_bool (price x) (price y)
  else Qeq_bool (localeCompare (title x) (title y)) 0.
End Collation.

(** A collation to run the sort with: ordinal comparison of the bytes. *)
Definition ordinalCompare (a b : string) : number :=
  match String.compare a b with
  | Lt => -1
  | Eq => 0
  | Gt => 1
  end%Q.

(** ** API client ([lib/api]) *)

(** What a rejected promise carries. *)
Inductive JsError : Type :=
  | Error (message : string)   (* [new Error(message)] *)
  | TypeError                  (* [fetch] could not reach the server *)
  | SyntaxError.               (* [res.json()] on a body that is not JSON *)

(** The outcome of awaiting a promise. *)
Inductive Promise (A : Type) : Type :=
  | Resolved (a : A)
  | Rejected (e : JsError).
Arguments Resolved {A} a.
Arguments Rejected {A} e.

(** A response as [fetchJson] sees it: its status, and what awaiting
    [res.json()] gives ([None]: the body does not parse).  The cast [as T] is
    unchecked, so the parsed body is taken at the type the caller expects. *)
Record Response (T : Type) : Type := mkResponse {
  status : Z;
  json : option T
}.
Arguments mkResponse {T} status json.
Arguments status {T} r.
Arguments json {T} r.

(** [Response.ok] (Fetch standard): the status is in the range 200 to 299. *)
Definition ok {T : Type} (res : Response T) : bool :=
  (200 <=? status res)%Z && (status res <=? 299)%Z.

Definition BASE : string := "https://dummyjson.com".

(** An asynchronous client computation: the URLs it requested, in order, and
    its outcome. *)
Definition Client (A : Type) : Type := list string * Promise A.

Section Fetch.
Context {T : Type}.
(** The network: what [fetch url] settles to. *)
Variable fetch : string -> Promise (Response T).

Definition fetchJson (url : string) : Client T :=
  ([url],
   match fetch url with
   | Rejected e => Rejected e
   | Resolved res =>
       if negb (ok res) then
         Rejected (Error ("Request failed (" ++ pretty (status res) ++ ")"))
       else
         match json res with
         | Some body => Resolved body
         | None => Rejected SyntaxError
         end
   end).
End Fetch.

(** [encodeURIComponent] on the UTF-8 bytes of a well-formed string: the
    unreserved marks, letters and digits stay, every other byte becomes
    [%XX] in upper-case hexadecimal. *)
Definition uriUnreserved (c : ascii) : bool :=
  let n := nat_of_ascii c in
  ((65 <=? n) && (n <=? 90) || (97 <=? n) && (n <=? 122) || (48 <=? n) && (n <=? 57)
   || existsb (Ascii.eqb c) (list_ascii_of_string "-_.!~*'()"))%nat.

Definition hexDigit (n : nat) : ascii :=
  nth n (list_ascii_of_string "0123456789ABCDEF") "0"%char.

Fixpoint encodeURIComponent (s : string) : string :=
  match s with
  | EmptyString => EmptyString
  | String c s' =>
      if uriUnreserved c then String c (encodeURIComponent s')
      else
        let n := nat_of_ascii c in
        String "%" (String (hexDigit (n / 16)) (String (hexDigit (n mod 16))
                                                  (encodeURIComponent s')))
  end.

(** JavaScript's [!v] for [v : string | null]. *)
Definition falsy (v : option string) : bool :=
  match v with
  | None => true
  | Some s => String.eqb s ""
  end.

Definition getCategories (fetch : string -> Promise (Response (list string)))
  : Client (list string) :=
  fetchJson fetch (BASE ++ "/products/categories").

Definition getProducts (fetch : string -> Promise (Response ProductsResponse))
    (category : option string) : Client (list Product) :=
  let limit := 100%Z in
  if falsy category then
    let '(requested, data) := fetchJson fetch (BASE ++ "/products?limit=" ++ pretty limit) in
    (requested, match data with
                | Resolved data => Resolved (products data)
                | Rejected e => Rejected e
                end)
  else
    let '(requested, data) :=
      fetchJson fetch (BASE ++ "/products/category/"
                            ++ encodeURIComponent (default "" category)
                            ++ "?limit=" ++ pretty limit) in
    (requested, match data with
                | Resolved data => Resolved (products data)
                | Rejected e => Rejected e
                end).

(** The URL the specification gives for a category: the category put into
    the path as it is. *)
Definition category_url_literal (category : string) : string :=
  BASE ++ "/products/category/" ++ category ++ "?limit=100".

(** ** Page controller *)

(** A value of [route.query]: a string or [null], or an array of those.  A
    key that is absent from the map reads as [undefined]. *)
Inductive RouteQueryValue : Type :=
  | QValue (v : option string)
  | QArray (vs : list (option string)).

Definition asSingleString (v : option RouteQueryValue) : option string :=
  match v with
  | Some (QValue (Some s)) => Some s
  | Some (QArray vs) => match vs with x :: _ => x | [] => None end
  | _ => None
  end.

Definition DEFAULT_CATEGORY : option string := None.

(** The reactive state of the page: the two filter refs, the guard, the
    current route query and the data of the categories query. *)
Record Page : Type := mkPage {
  selectedCategory : option string;
  selectedSort : SortKey;
  syncing : bool;
  route_query : gmap string RouteQueryValue;
  categoriesData : option (list string)
}.

Definition categories (st : Page) : list string := default [] (categoriesData st).

Definition categoryOptions (st : Page) : list string := "all products" :: categories st.

Definition includes (l : list string) (s : string) : bool := existsb (String.eqb s) l.

Definition isValidCategoryParam (st : Page) (param : option string) : bool :=
  if falsy param then true
  else includes (categories st) (default "" param).

Definition set_syncing (b : bool) (st : Page) : Page :=
  mkPage (selectedCategory st) (selectedSort st) b (route_query st) (categoriesData st).

(** [router.replace({ query })]: the values written are strings, which the
    router's query normalisation leaves as they are. *)
Definition router_replace (q : gmap string RouteQueryValue) (st : Page) : Page :=
  mkPage (selectedCategory st) (selectedSort st) (syncing st) q (categoriesData st).

Definition set_filter (c : option string) (s : SortKey) (st : Page) : Page :=
  mkPage c s (syncing st) (route_query st) (categoriesData st).

Definition option_string_eqb (a b : option string) : bool :=
  match a, b with
  | Some x, Some y => String.eqb x y
  | None, None => true
  | _, _ => false
  end.

Definition writeStateToRoute (st : Page) : Page :=
  let q := route_query st in
  let q := match selectedCategory st with
           | None => delete "category" q
           | Some c => <["category" := QValue (Some c)]> q
           end in
  let q := if String.eqb (selectedSort st) DEFAULT_SORT then delete "sort" q
           else <["sort" := QValue (Some (selectedSort st))]> q in
  let st := set_syncing true st in
  let st := router_replace q st in
  set_syncing false st.

Definition readRouteToStateAndClean (st : Page) : Page :=
  let rawCategory := asSingleString (route_query st !! "category") in
  let rawSort := asSingleString (route_query st !! "sort") in
  let nextSort : SortKey :=
    if isSortKey rawSort then default DEFAULT_SORT rawSort else DEFAULT_SORT in
  let nextCategory : option string :=
    if option_string_eqb rawCategory None || option_string_eqb rawCategory (Some "")
       || option_string_eqb rawCategory (Some "all products")
    then DEFAULT_CATEGORY
    else if (0 <? length (categories st))%nat then
      (if isValidCategoryParam st rawCategory then rawCategory else DEFAULT_CATEGORY)
    else DEFAULT_CATEGORY in
  let changed :=
    negb (String.eqb nextSort (selectedSort st))
    || negb (option_string_eqb nextCategory (selectedCategory st)) in
  let st := if changed then set_filter nextCategory nextSort st else st in
  let needsCategoryClean :=
    (0 <? length (categories st))%nat
    && negb (option_string_eqb rawCategory None)
    && negb (option_string_eqb rawCategory (Some ""))
    && negb (option_string_eqb rawCategory (Some "all products"))
    && negb (isValidCategoryParam st rawCategory) in
  let needsSortClean :=
    negb (option_string_eqb rawSort None)
    && negb (option_string_eqb rawSort (Some ""))
    && negb (isSortKey rawSort) in
  if needsCategoryClean || needsSortClean then writeStateToRoute st else st.

(** UI handlers. *)
Definition onCategoryChange (v : string) (st : Page) : Page :=
  if String.eqb v "all products" then set_filter DEFAULT_CATEGORY (selectedSort st) st
  else set_filter (Some v) (selectedSort st) st.

Definition onSortChange (v : SortKey) (st : Page) : Page :=
  set_filter (selectedCategory st) v st.

(** The watchers: each returns at once while a write is in flight. *)
Definition onRouteQueryChange (st : Page) : Page :=
  if syncing st then st else readRouteToStateAndClean st.

Definition onCategoriesLoaded (st : Page) : Page :=
  match categoriesData st with
  | None => st
  | Some _ => if syncing st then st else readRouteToStateAndClean st
  end.

Definition onFilterChange (st : Page) : Page :=
  if syncing st then st else writeStateToRoute st.

(** The page as it is set up: default filters, guard down. *)
Definition initialPage (q : gmap string RouteQueryValue) (cs : option (list string)) : Page :=
  mkPage DEFAULT_CATEGORY DEFAULT_SORT false q cs.

(** The operations that update the filter state.  The two handlers are
    wired to the [select] elements of the template, whose options are
    [categoryOptions] and the values of [SORT_OPTIONS]. *)
Inductive step : Page -> Page -> Prop :=
  | step_read st :
      step st (readRouteToStateAndClean st)
  | step_category st v :
      In v (categoryOptions st) -> step st (onCategoryChange v st)
  | step_sort st v :
      In v (map value SORT_OPTIONS) -> step st (onSortChange v st).

(** The invariant of the filter state. *)
Definition filter_state_ok (st : Page) : Prop :=
  isSortKey (Some (selectedSort st)) = true /\
  match selectedCategory st with
  | None => True
  | Some c => In c (categories st)
  end.

(** ** The statements of the specification that the code does not satisfy

    Each is written down as the specification has it, to be refuted at a
    concrete input. *)

(** "fetchJson raises an error if and only if the response status is not a
    2xx success". *)
Definition raises_iff_not_2xx {T : Type}
    (fetch : string -> Promise (Response T)) (url : string) (res : Response T) : Prop :=
  fetch url = Resolved res ->
  ((exists e, snd (fetchJson fetch url) = Rejected e) <->
   ~ (200 <= status res <= 299)%Z).

(** "getProducts requests exactly the URL [{base}/products?limit=100] when
    the category is null or empty, and exactly
    [{base}/products/category/{category}?limit=100] when a category is
    given". *)
Definition requests_literal_url
    (fetch : string -> Promise (Response ProductsResponse)) (category : option string) : Prop :=
  fst (getProducts fetch category)
  = [ if falsy category then BASE ++ "/products?limit=100"
      else category_url_literal (default "" category) ].

(** "For every URL query whose sort parameter is not one of the four sort
    keys or whose category parameter is not a member of the loaded category
    list, reading the query sets the corresponding state field to its
    default and removes the offending parameter from the URL query." *)
Definition invalid_params_removed (st : Page) : Prop :=
  let rawCategory := asSingleString (route_query st !! "category") in
  let rawSort := asSingleString (route_query st !! "sort") in
  let st' := readRouteToStateAndClean st in
  (isSortKey rawSort = false ->
   selectedSort st' = DEFAULT_SORT /\ route_query st' !! "sort" = None) /\
  ((forall c, rawCategory = Some c -> ~ In c (categories st)) ->
   selectedCategory st' = DEFAULT_CATEGORY /\ route_query st' !! "category" = None).

(** "For every filter state whose category is null or a member of the loaded
    category list and whose sort key is one of the four known values, given
    that the category list has loaded, writing that state into the URL query
    and then reading the query back restores exactly the same state." *)
Definition roundtrips (st : Page) : Prop :=
  filter_state_ok st ->
  categories st <> [] ->
  let st' := readRouteToStateAndClean (writeStateToRoute st) in
  selectedCategory st' = selectedCategory st /\ selectedSort st' = selectedSort st.

(** ** Sample data *)

Definition sampleProduct (n : Z) (t : string) (p : number) : Product :=
  mkProduct (inject_Z n) t "" p None None None None "smartphones" "" None.

Definition sampleProducts : list Product :=
  [ sampleProduct 1 "Pixel" (599 # 1);
    sampleProduct 2 "iPhone" (1998 # 2);
    sampleProduct 3 "Galaxy" (599 # 1);
    sampleProduct 4 "Nokia" (99 # 1);
    sampleProduct 5 "Pixel" (99 # 1) ].

(** Twelve products, more than the page shows, with equal prices among
    them. *)
Definition sampleCatalogue : list Product :=
  [ sampleProduct 1 "Pixel" (599 # 1);
    sampleProduct 2 "iPhone" (999 # 1);
    sampleProduct 3 "Galaxy" (599 # 1);
    sampleProduct 4 "Nokia" (99 # 1);
    sampleProduct 5 "Pixel" (99 # 1);
    sampleProduct 6 "Xperia" (450 # 1);
    sampleProduct 7 "Moto" (199 # 1);
    sampleProduct 8 "OnePlus" (900 # 2);
    sampleProduct 9 "Redmi" (150 # 1);
    sampleProduct 10 "Honor" (250 # 1);
    sampleProduct 11 "Oppo" (300 # 1);
    sampleProduct 12 "Vivo" (99 # 1) ].

Definition sampleStore : gmap loc (list Product) :=
  {[ 1%positive := sampleProducts ]}.

Definition sampleResponse : ProductsResponse :=
  mkProductsResponse sampleProducts 5%Q 0%Q 100%Q.

Definition sampleServer (url : string) : Promise (Response ProductsResponse) :=
  Resolved (mkResponse 200 (Some sampleResponse)).

(** A server that answers 200 with a body that is not JSON. *)
Definition htmlResponse : Response (list string) := mkResponse 200 None.

Definition htmlServer (url : string) : Promise (Response (list string)) :=
  Resolved htmlResponse.

Definition sampleCategories : list string := ["smartphones"; "laptops"].

(** The page opened at [/products?sort=], categories loaded. *)
Definition pageEmptySort : Page :=
  initialPage {[ "sort" := QValue (Some "") ]} (Some sampleCategories).

(** The page opened at [/products?category=toys&sort=cheapest&page=2]. *)
Definition pageBadParams : Page :=
  initialPage {[ "category" := QValue (Some "toys");
                 "sort" := QValue (Some "cheapest");
                 "page" := QValue (Some "2") ]} (Some sampleCategories).

(** The page opened at [/products?category=laptops&sort=cheapest] before the
    categories have arrived. *)
Definition pagePendingCategory : Page :=
  initialPage {[ "category" := QValue (Some "laptops");
                 "sort" := QValue (Some "cheapest") ]} None.

(** A page with a filter selected and an unrelated query parameter. *)
Definition pageLaptops : Page :=
  mkPage (Some "laptops") "price-desc" false
         {[ "page" := QValue (Some "2") ]} (Some sampleCategories).

(** The category list holds an empty name, and the user has picked it. *)
Definition pageEmptyCategory : Page :=
  onCategoryChange "" (initialPage ∅ (Some ["smartphones"; ""])).

(** ** Further notions used by the properties *)

(** A consistent comparator: swapping the arguments flips the sign, and the
    order it induces is transitive. *)
Definition consistent {A : Type} (comparefn : A -> A -> number) : Prop :=
  (forall a b, (comparefn a b < 0)%Q <-> (0 < comparefn b a)%Q) /\
  (forall a b c,
      (comparefn a b <= 0)%Q -> (comparefn b c <= 0)%Q -> (comparefn a c <= 0)%Q).

(** The value the category [select] shows:
    [selectedCategory ? selectedCategory : 'all products']. *)
Definition categorySelectValue (st : Page) : string :=
  if falsy (selectedCategory st) then "all products"
  else default "" (selectedCategory st).

(** The categories query delivers its data and the effect that watches it
    runs. *)
Definition categoriesArrive (cs : list string) (st : Page) : Page :=
  onCategoriesLoaded
    (mkPage (selectedCategory st) (selectedSort st) (syncing st) (route_query st) (Some cs)).

(** The locals of [readRouteToStateAndClean], named for the proofs. *)
Definition rawCategoryOf (st : Page) : option string :=
  asSingleString (route_query st !! "category").

Definition rawSortOf (st : Page) : option string :=
  asSingleString (route_query st !! "sort").

Definition nextSortOf (st : Page) : SortKey :=
  if isSortKey (rawSortOf st) then default DEFAULT_SORT (rawSortOf st) else DEFAULT_SORT.

Definition nextCategoryOf (st : Page) : option string :=
  if option_string_eqb (rawCategoryOf st) None
     || option_string_eqb (rawCategoryOf st) (Some "")
     || option_string_eqb (rawCategoryOf st) (Some "all products")
  then DEFAULT_CATEGORY
  else if (0 <? length (categories st))%nat then
    (if isValidCategoryParam st (rawCategoryOf st) then rawCategoryOf st
     else DEFAULT_CATEGORY)
  else DEFAULT_CATEGORY.

Definition needsCleanOf (st : Page) : bool :=
  (0 <? length (categories st))%nat
  && negb (option_string_eqb (rawCategoryOf st) None)
  && negb (option_string_eqb (rawCategoryOf st) (Some ""))
  && negb (option_string_eqb (rawCategoryOf st) (Some "all products"))
  && negb (isValidCategoryParam st (rawCategoryOf st))
  || negb (option_string_eqb (rawSortOf st) None)
     && negb (option_string_eqb (rawSortOf st) (Some ""))
     && negb (isSortKey (rawSortOf st)).

(** The filter state as reading the route leaves it: as [filter_state_ok],
    and the category is neither of the two values read as "no category". *)
Definition filter_state_strict (st : Page) : Prop :=
  isSortKey (Some (selectedSort st)) = true /\
  match selectedCategory st with
  | None => True
  | Some c => In c (categories st) /\ c <> "" /\ c <> "all products"
  end.

(** The page opened at [/products?category=laptops&page=2] before the
    categories have arrived. *)
Definition pageDeferred : Page :=
  initialPage {[ "category" := QValue (Some "laptops");
                 "page" := QValue (Some "2") ]} None.

(** The query function of the products query: [getProducts] on the selected
    category. *)
Definition productsQueryFn (fetch : string -> Promise (Response ProductsResponse))
    (st : Page) : Client (list Product) :=
  getProducts fetch (selectedCategory st).

(** What the [main] element of the template renders: the chain of
    [v-if]/[v-else-if]/[v-else] over the state of the products query.
    [visibleProducts] is only evaluated when the chain reaches it. *)
Inductive View : Type :=
  | ErrorView
  | SkeletonView
  | EmptyView
  | GridView (cards : list Product).

Definition pageView (localeCompare : string -> string -> number)
    (isError isLoading : bool) (data : option (list Product)) (selectedSort : SortKey)
  : option View :=
  if isError then Some ErrorView
  else if isLoading && negb (0 <? length (default [] data))%nat then Some SkeletonView
  else
    match visibleProducts localeCompare data selectedSort with
    | Some visible =>
        if (length visible =? 0)%nat then Some EmptyView else Some (GridView visible)
    | None => None
    end.

(** * Properties *)

(** ** The built-in sort *)

Section ArraySortFacts.
Context {A : Type}.
Variable comparefn : A -> A -> number.

Lemma sort_insert_perm a s : Permutation (sort_insert comparefn a s) (a :: s).
Proof.
  induction s as [|b s IH]; simpl; [reflexivity|].
  destruct (Qle_bool (comparefn a b) 0); [reflexivity|].
  rewrite IH. apply perm_swap.
Qed.

Lemma Array_sort_perm l : Permutation (Array_sort comparefn l) l.
Proof.
  induction l as [|a l IH]; simpl; [constructor|].
  rewrite sort_insert_perm. now constructor.
Qed.

Lemma Array_sort_length l : length (Array_sort comparefn l) = length l.
Proof. apply Permutation_length, Array_sort_perm. Qed.

(** The comparator is consistent (ECMA-262, "consistent comparator"):
    swapping the arguments flips the sign, and the induced order is
    transitive. *)
Hypothesis comparefn_flip :
  forall a b, (comparefn a b < 0)%Q <-> (0 < comparefn b a)%Q.
Hypothesis comparefn_trans :
  forall a b c,
    (comparefn a b <= 0)%Q -> (comparefn b c <= 0)%Q -> (comparefn a c <= 0)%Q.

Lemma ties_sym x y : ties comparefn x y = true -> (comparefn y x == 0)%Q.
Proof.
  unfold ties. intros H%Qeq_bool_iff.
  destruct (Q_dec (comparefn y x) 0) as [[Hlt|Hgt]|Heq]; [| |exact Heq].
  - apply comparefn_flip in Hlt. lra.
  - apply comparefn_flip in Hgt. lra.
Qed.

Lemma sort_insert_sorted a s :
  StronglySorted (in_order comparefn) s ->
  StronglySorted (in_order comparefn) (sort_insert comparefn a s).
Proof.
  induction 1 as [|b s Hs IH Hb]; simpl.
  - repeat constructor.
  - destruct (Qle_bool (comparefn a b) 0) eqn:E.
    + apply Qle_bool_iff in E.
      constructor; [now constructor|].
      constructor; [exact E|].
      eapply List.Forall_impl; [|exact Hb].
      intros c Hc. now apply (comparefn_trans a b c).
    + constructor; [exact IH|].
      assert (Hba : in_order comparefn b a).
      { unfold in_order.
        destruct (Qlt_le_dec 0 (comparefn a b)) as [Hgt|Hle].
        - apply comparefn_flip in Hgt. lra.
        - apply Qle_bool_iff in Hle. congruence. }
      apply List.Forall_forall. intros c Hc.
      apply (Permutation_in _ (sort_insert_perm a s)) in Hc.
      destruct Hc as [<-|Hc]; [exact Hba|].
      rewrite List.Forall_forall in Hb. now apply Hb.
Qed.

Lemma Array_sort_sorted l : StronglySorted (in_order comparefn) (Array_sort comparefn l).
Proof.
  induction l as [|a l IH]; simpl; [constructor|].
  now apply sort_insert_sorted.
Qed.

Lemma sort_insert_stable x a s :
  List.filter (ties comparefn x) (sort_insert comparefn a s)
  = List.filter (ties comparefn x) (a :: s).
Proof.
  induction s as [|b s IH]; [reflexivity|].
  cbn [sort_insert].
  destruct (Qle_bool (comparefn a b) 0) eqn:E; [reflexivity|].
  cbn [List.filter] in *. rewrite IH.
  destruct (ties comparefn x a) eqn:Ea, (ties comparefn x b) eqn:Eb; try reflexivity.
  exfalso.
  apply ties_sym in Ea. apply Qeq_bool_iff in Eb.
  assert (Hab : (comparefn a b <= 0)%Q)
    by (apply (comparefn_trans a x b); lra).
  apply Qle_bool_iff in Hab. congruence.
Qed.

Lemma Array_sort_stable x l :
  List.filter (ties comparefn x) (Array_sort comparefn l)
  = List.filter (ties comparefn x) l.
Proof.
  induction l as [|a l IH]; [reflexivity|].
  cbn [Array_sort]. rewrite sort_insert_stable.
  cbn [List.filter]. now rewrite IH.
Qed.
End ArraySortFacts.

Lemma StronglySorted_impl {A : Type} (R R' : A -> A -> Prop) (l : list A) :
  (forall a b, R a b -> R' a b) -> StronglySorted R l -> StronglySorted R' l.
Proof.
  intros HR. induction 1 as [|a l Hl IH Ha]; constructor; [exact IH|].
  eapply List.Forall_impl; [|exact Ha]. intros b. apply HR.
Qed.

Lemma Qeq_bool_diff (a b : Q) : Qeq_bool (a - b) 0 = Qeq_bool a b.
Proof.
  destruct (Qeq_bool a b) eqn:E.
  - apply Qeq_bool_iff in E. apply Qeq_bool_iff. lra.
  - apply not_true_iff_false. intros H%Qeq_bool_iff.
    apply not_true_iff_false in E. apply E, Qeq_bool_iff. lra.
Qed.

Lemma Qeq_bool_swap (a b : Q) : Qeq_bool a b = Qeq_bool b a.
Proof.
  destruct (Qeq_bool b a) eqn:E.
  - apply Qeq_bool_iff in E. apply Qeq_bool_iff. lra.
  - apply not_true_iff_false. intros H%Qeq_bool_iff.
    apply not_true_iff_false in E. apply E, Qeq_bool_iff. lra.
Qed.

Lemma Array_slice_0 {A : Type} (l : list A) (n : nat) :
  Array_slice l 0 (Z.of_nat n) = firstn n l.
Proof.
  unfold Array_slice.
  replace (0 <? 0)%Z with false by reflexivity.
  replace (Z.of_nat n <? 0)%Z with false by (symmetry; apply Z.ltb_ge; lia).
  rewrite (Z.min_l 0) by lia. cbn [Z.to_nat skipn].
  rewrite Z.sub_0_r, Z.max_l by lia.
  destruct (Nat.le_gt_cases n (length l)) as [Hle|Hgt].
  - rewrite Z.min_l by lia. now rewrite Nat2Z.id.
  - rewrite Z.min_r by lia. rewrite Nat2Z.id.
    rewrite firstn_all, (firstn_all2 (n:=n)) by lia. reflexivity.
Qed.

(** ** The sort utility *)

Lemma isSortKey_cases (s : string) :
  isSortKey (Some s) = true <->
  s = "price-asc" \/ s = "price-desc" \/ s = "title-asc" \/ s = "title-desc".
Proof.
  unfold isSortKey, SORT_OPTIONS. cbn [existsb value].
  rewrite !orb_true_iff, !String.eqb_eq. intuition congruence.
Qed.

Lemma isSortKey_Some (v : option string) :
  isSortKey v = true -> exists s, v = Some s.
Proof. destruct v; [eauto|discriminate]. Qed.

(** A consistent comparator sorts: the result is a permutation, ordered for
    any relation the comparator's order implies, and stable for any key
    equality that agrees with the comparator's ties. *)
Lemma Array_sort_spec {A : Type} (comparefn : A -> A -> number)
    (R : A -> A -> Prop) (k : A -> A -> bool) (l : list A) :
  (forall a b, (comparefn a b < 0)%Q <-> (0 < comparefn b a)%Q) ->
  (forall a b c,
      (comparefn a b <= 0)%Q -> (comparefn b c <= 0)%Q -> (comparefn a c <= 0)%Q) ->
  (forall a b, in_order comparefn a b -> R a b) ->
  (forall x y, k x y = ties comparefn x y) ->
  Permutation (Array_sort comparefn l) l /\
  StronglySorted R (Array_sort comparefn l) /\
  (forall x, List.filter (k x) (Array_sort comparefn l) = List.filter (k x) l).
Proof.
  intros Hflip Htrans HR Hk. split; [apply Array_sort_perm|]. split.
  - eapply StronglySorted_impl; [exact HR|]. now apply Array_sort_sorted.
  - intros x.
    rewrite (List.filter_ext (k x) (ties comparefn x) (Hk x)).
    rewrite (List.filter_ext (k x) (ties comparefn x) (Hk x)).
    now apply Array_sort_stable.
Qed.

Section SortProductsFacts.
Variable localeCompare : string -> string -> number.

Lemma sortProducts_is_Some items sort :
  isSortKey (Some sort) = true -> is_Some (sortProducts localeCompare items sort).
Proof.
  intros H%isSortKey_cases.
  destruct H as [-> | [-> | [-> | ->]]]; cbn; eauto.
Qed.

Lemma sortProducts_perm items sort sorted :
  sortProducts localeCompare items sort = Some sorted -> Permutation sorted items.
Proof.
  unfold sortProducts. intros H.
  repeat (destruct (String.eqb sort _) in H);
    inversion H; subst; apply Array_sort_perm.
Qed.

Section ConsistentCollation.
(** [localeCompare] is a consistent comparator on strings. *)
Hypothesis localeCompare_flip :
  forall a b, (localeCompare a b < 0)%Q <-> (0 < localeCompare b a)%Q.
Hypothesis localeCompare_trans :
  forall a b c,
    (localeCompare a b <= 0)%Q -> (localeCompare b c <= 0)%Q ->
    (localeCompare a c <= 0)%Q.

Lemma localeCompare_zero_sym a b :
  Qeq_bool (localeCompare a b) 0 = Qeq_bool (localeCompare b a) 0.
Proof.
  pose proof (localeCompare_flip a b) as H1.
  pose proof (localeCompare_flip b a) as H2.
  destruct (Qeq_bool (localeCompare b a) 0) eqn:E.
  - apply Qeq_bool_iff in E. apply Qeq_bool_iff.
    destruct (Q_dec (localeCompare a b) 0) as [[Hlt|Hgt]|Heq]; [| |exact Heq].
    + apply H1 in Hlt. lra.
    + apply H2 in Hgt. lra.
  - apply not_true_iff_false. intros H%Qeq_bool_iff.
    apply not_true_iff_false in E. apply E, Qeq_bool_iff.
    destruct (Q_dec (localeCompare b a) 0) as [[Hlt|Hgt]|Heq]; [| |exact Heq].
    + apply H2 in Hlt. lra.
    + apply H1 in Hgt. lra.
Qed.

(** C2: for each of the four keys [sortProducts] returns a permutation of
    its input that is ordered by the key, and elements that compare equal
    under the key keep the relative order they had in the input. *)
Theorem sortProducts_sorted_stable (items : list Product) (sort : SortKey) :
  isSortKey (Some sort) = true ->
  exists sorted,
    sortProducts localeCompare items sort = Some sorted /\
    Permutation sorted items /\
    StronglySorted (ordered_by localeCompare sort) sorted /\
    (forall x,
        List.filter (same_key localeCompare sort x) sorted
        = List.filter (same_key localeCompare sort x) items).
Proof.
  intros H%isSortKey_cases.
  destruct H as [-> | [-> | [-> | ->]]];
    (eexists; split; [reflexivity|]); apply Array_sort_spec.
  - intros a b. lra.
  - intros a b c. lra.
  - intros a b. unfold in_order. cbn. lra.
  - intros x y. unfold ties. cbn. symmetry. apply Qeq_bool_diff.
  - intros a b. lra.
  - intros a b c. lra.
  - intros a b. unfold in_order. cbn. lra.
  - intros x y. unfold ties. cbn.
    rewrite Qeq_bool_diff. apply Qeq_bool_swap.
  - intros a b. apply localeCompare_flip.
  - intros a b c. apply localeCompare_trans.
  - intros a b H. exact H.
  - intros x y. reflexivity.
  - intros a b. apply localeCompare_flip.
  - intros a b c H1 H2.
    now apply (localeCompare_trans (title c) (title b) (title a)).
  - intros a b. unfold in_order. cbn. intros H.
    destruct (Qlt_le_dec (localeCompare (title a) (title b)) 0) as [Hlt|Hge];
      [|exact Hge].
    apply localeCompare_flip in Hlt. lra.
  - intros x y. unfold ties. cbn. apply localeCompare_zero_sym.
Qed.
End ConsistentCollation.
End SortProductsFacts.

(** ** Ordinal comparison is a consistent comparator *)

Lemma ordinalCompare_flip (a b : string) :
  (ordinalCompare a b < 0)%Q <-> (0 < ordinalCompare b a)%Q.
Proof.
  unfold ordinalCompare. rewrite (String.compare_antisym a b).
  destruct (String.compare b a); cbn [CompOpp]; lra.
Qed.

Lemma ordinalCompare_le (a b : string) :
  (ordinalCompare a b <= 0)%Q <-> a = b \/ OrderedTypeEx.String_as_OT.lt a b.
Proof.
  unfold ordinalCompare.
  destruct (String.compare a b) eqn:E.
  - apply String.compare_eq_iff in E. split; [auto|lra].
  - apply OrderedTypeEx.String_as_OT.cmp_lt in E. split; [auto|lra].
  - split; [lra|]. intros [->|H].
    + assert (String.compare b b = Eq)
        by now apply OrderedTypeEx.String_as_OT.cmp_eq.
      congruence.
    + apply OrderedTypeEx.String_as_OT.cmp_lt in H.
      change (OrderedTypeEx.String_as_OT.cmp a b) with (String.compare a b) in H.
      congruence.
Qed.

Lemma ordinalCompare_trans (a b c : string) :
  (ordinalCompare a b <= 0)%Q -> (ordinalCompare b c <= 0)%Q ->
  (ordinalCompare a c <= 0)%Q.
Proof.
  rewrite !ordinalCompare_le.
  intros [->|H1] [->|H2]; auto.
  right. eapply OrderedTypeEx.String_as_OT.lt_trans; eassumption.
Qed.

Lemma sortProducts_sorted_stable_witness :
  isSortKey (Some "title-desc") = true /\
  exists sorted,
    sortProducts ordinalCompare sampleProducts "title-desc" = Some sorted /\
    Permutation sorted sampleProducts /\
    StronglySorted (ordered_by ordinalCompare "title-desc") sorted /\
    (forall x,
        List.filter (same_key ordinalCompare "title-desc" x) sorted
        = List.filter (same_key ordinalCompare "title-desc" x) sampleProducts).
Proof.
  split; [reflexivity|].
  apply (sortProducts_sorted_stable ordinalCompare
           ordinalCompare_flip ordinalCompare_trans sampleProducts "title-desc").
  reflexivity.
Defined.

(** The sort on the samples, by price and by title. *)
Example sortProducts_sample_price :
  option_map (map id) (sortProducts ordinalCompare sampleProducts "price-asc")
  = Some (map inject_Z [4; 5; 1; 3; 2]%Z).
Proof. vm_compute. reflexivity. Qed.

Example sortProducts_sample_title :
  option_map (map id) (sortProducts ordinalCompare sampleProducts "title-desc")
  = Some (map inject_Z [2; 1; 5; 4; 3]%Z).
Proof. vm_compute. reflexivity. Qed.

(** ** [sortProducts] on the store *)

Section StoreFacts.
Variable localeCompare : string -> string -> number.

Lemma array_spread_fresh (h : gmap loc (list Product)) (items : loc) (l : list Product) :
  h !! items = Some l ->
  exists copy,
    array_spread h items = Some (copy, <[copy := l]> h) /\
    h !! copy = None /\ copy <> items.
Proof.
  intros Hl. exists (fresh (dom h)).
  unfold array_spread. rewrite Hl.
  assert (Hfresh : h !! fresh (dom h) = None)
    by (apply not_elem_of_dom, is_fresh).
  repeat split; [exact Hfresh|].
  intros E. rewrite E in Hfresh. congruence.
Qed.

Lemma array_sort_in_place_copy comparefn (h : gmap loc (list Product)) copy l :
  array_sort_in_place comparefn (<[copy := l]> h) copy
  = Some (<[copy := Array_sort comparefn l]> h).
Proof.
  unfold array_sort_in_place.
  rewrite lookup_insert_eq. now rewrite insert_insert_eq.
Qed.

(** C9: [sortProducts] leaves the array it is given as it was, and returns
    a new array, which is not the argument and was not in the store before,
    holding the sorted contents; no other array of the store changes. *)
Theorem sortProducts_store_frame
    (h : gmap loc (list Product)) (items : loc) (l : list Product) (sort : SortKey) :
  h !! items = Some l ->
  isSortKey (Some sort) = true ->
  exists copy h',
    sortProducts_store localeCompare h items sort = Some (Some copy, h') /\
    h' !! items = Some l /\
    copy <> items /\
    h !! copy = None /\
    h' !! copy = sortProducts localeCompare l sort /\
    (forall p, p <> copy -> h' !! p = h !! p).
Proof.
  intros Hl Hsort.
  destruct (array_spread_fresh h items l Hl) as (copy & Hspread & Hnew & Hne).
  unfold sortProducts_store. rewrite Hspread.
  apply isSortKey_cases in Hsort.
  destruct Hsort as [-> | [-> | [-> | ->]]];
    cbn [String.eqb Ascii.eqb Bool.eqb]; cbv iota;
    rewrite array_sort_in_place_copy;
    (eexists copy, _; split; [reflexivity|]);
    (split; [rewrite lookup_insert_ne by done; exact Hl|]);
    (split; [exact Hne|]); (split; [exact Hnew|]);
    (split; [rewrite lookup_insert_eq; reflexivity|]);
    intros p Hp; now rewrite lookup_insert_ne.
Qed.
End StoreFacts.

Lemma sortProducts_store_frame_witness :
  exists copy h',
    sortProducts_store ordinalCompare sampleStore 1%positive "price-asc" = Some (Some copy, h') /\
    h' !! 1%positive = Some sampleProducts /\
    copy <> 1%positive /\
    sampleStore !! copy = None /\
    h' !! copy = sortProducts ordinalCompare sampleProducts "price-asc" /\
    (forall p, p <> copy -> h' !! p = sampleStore !! p).
Proof.
  apply (sortProducts_store_frame ordinalCompare sampleStore 1%positive
           sampleProducts "price-asc"); reflexivity.
Defined.

(** ** The API client *)

Lemma pretty_limit : pretty 100%Z = "100".
Proof. vm_compute. reflexivity. Qed.

Lemma ok_2xx {T : Type} (res : Response T) :
  ok res = true <-> (200 <= status res <= 299)%Z.
Proof. unfold ok. rewrite andb_true_iff, !Z.leb_le. reflexivity. Qed.

Lemma fetchJson_requested {T : Type} (fetch : string -> Promise (Response T)) url :
  fst (fetchJson fetch url) = [url].
Proof. reflexivity. Qed.

(** C7, as stated, fails on a 200 response whose body is not JSON:
    [res.json()] rejects and [fetchJson] raises although the status is 2xx. *)
Lemma fetchJson_raises_on_2xx_html :
  ~ raises_iff_not_2xx htmlServer (BASE ++ "/products/categories") htmlResponse.
Proof.
  unfold raises_iff_not_2xx. intros H.
  destruct (H eq_refl) as [Hraise _].
  apply Hraise.
  - exists SyntaxError. reflexivity.
  - cbn. lia.
Qed.

(** C7, amended: [fetchJson] raises its "Request failed" error exactly when
    the status is not 2xx; on a 2xx response it returns the parsed body when
    the body parses, and otherwise the parse error of [res.json()]. *)
Theorem fetchJson_non_2xx {T : Type}
    (fetch : string -> Promise (Response T)) (url : string) (res : Response T) :
  fetch url = Resolved res ->
  (snd (fetchJson fetch url)
     = Rejected (Error ("Request failed (" ++ pretty (status res) ++ ")"))
   <-> ~ (200 <= status res <= 299)%Z) /\
  ((200 <= status res <= 299)%Z ->
   snd (fetchJson fetch url)
     = match json res with
       | Some body => Resolved body
       | None => Rejected SyntaxError
       end).
Proof.
  intros Hres. unfold fetchJson. cbn [snd]. rewrite Hres.
  rewrite <- ok_2xx.
  destruct (ok res); cbn [negb].
  - split.
    + split; [|intros H; now contradiction H].
      destruct (json res); discriminate.
    + reflexivity.
  - split; [|discriminate].
    split; [discriminate|reflexivity].
Qed.

Lemma fetchJson_non_2xx_witness :
  sampleServer (BASE ++ "/products?limit=100")
    = Resolved (mkResponse 200 (Some sampleResponse)) /\
  snd (fetchJson sampleServer (BASE ++ "/products?limit=100"))
    = Resolved sampleResponse.
Proof.
  split; [reflexivity|].
  apply (fetchJson_non_2xx sampleServer (BASE ++ "/products?limit=100")
           (mkResponse 200 (Some sampleResponse))
           eq_refl).
  cbn. lia.
Defined.

(** The two callers raise exactly when [fetchJson] does. *)
Lemma getCategories_fetchJson (fetch : string -> Promise (Response (list string))) :
  getCategories fetch = fetchJson fetch (BASE ++ "/products/categories").
Proof. reflexivity. Qed.

Lemma encodeURIComponent_unreserved (s : string) :
  forallb uriUnreserved (list_ascii_of_string s) = true ->
  encodeURIComponent s = s.
Proof.
  induction s as [|c s IH]; [reflexivity|].
  cbn [list_ascii_of_string forallb encodeURIComponent].
  intros [Hc Hs]%andb_true_iff. rewrite Hc. now rewrite IH.
Qed.

Example encodeURIComponent_sample :
  encodeURIComponent "home decor & more/1" = "home%20decor%20%26%20more%2F1".
Proof. vm_compute. reflexivity. Qed.

(** C8, as stated, fails for a category with a reserved character: the
    category is percent-encoded before it is put into the path. *)
Lemma getProducts_encodes_category :
  ~ requests_literal_url sampleServer (Some "men/shoes").
Proof.
  unfold requests_literal_url. vm_compute. intros H. discriminate H.
Qed.

(** C8, amended: [getProducts] makes one request, to
    [{base}/products?limit=100] when the category is null or empty and
    otherwise to [{base}/products/category/{c}?limit=100] where [c] is the
    category encoded by [encodeURIComponent] (the category itself when it
    has unreserved characters only); when the request succeeds it returns
    the [products] field of the response. *)
Theorem getProducts_request
    (fetch : string -> Promise (Response ProductsResponse)) (category : option string) :
  fst (getProducts fetch category)
    = [ if falsy category then BASE ++ "/products?limit=100"
        else BASE ++ "/products/category/"
                  ++ encodeURIComponent (default "" category) ++ "?limit=100" ] /\
  (forallb uriUnreserved (list_ascii_of_string (default "" category)) = true ->
   requests_literal_url fetch category) /\
  (forall url res data,
      fst (getProducts fetch category) = [url] ->
      fetch url = Resolved res ->
      (200 <= status res <= 299)%Z ->
      json res = Some data ->
      snd (getProducts fetch category) = Resolved (products data)).
Proof.
  assert (Hfst : fst (getProducts fetch category)
    = [ if falsy category then BASE ++ "/products?limit=100"
        else BASE ++ "/products/category/"
                  ++ encodeURIComponent (default "" category) ++ "?limit=100" ]).
  { unfold getProducts. rewrite pretty_limit.
    destruct (falsy category); reflexivity. }
  split; [exact Hfst|]. split.
  - intros Hun. unfold requests_literal_url, category_url_literal.
    rewrite Hfst. now rewrite (encodeURIComponent_unreserved _ Hun).
  - intros url res data Hurl Hres Hok Hjson.
    apply ok_2xx in Hok.
    unfold getProducts in *.
    destruct (falsy category); unfold fetchJson in *; cbn [fst snd] in *;
      injection Hurl as Hurl; rewrite Hurl, Hres, Hok, Hjson; reflexivity.
Qed.

Lemma getProducts_request_witness :
  fst (getProducts sampleServer (Some "smartphones"))
    = [BASE ++ "/products/category/smartphones?limit=100"] /\
  requests_literal_url sampleServer (Some "smartphones") /\
  snd (getProducts sampleServer (Some "smartphones")) = Resolved sampleProducts.
Proof.
  destruct (getProducts_request sampleServer (Some "smartphones")) as (Hurl & Hlit & Hres).
  split; [exact Hurl|]. split; [apply Hlit; reflexivity|].
  apply (Hres _ (mkResponse 200 (Some sampleResponse)) sampleResponse Hurl eq_refl);
    [cbn; lia|reflexivity].
Defined.

(** [getProducts] raises exactly what [fetchJson] raises. *)
Lemma getProducts_rejected
    (fetch : string -> Promise (Response ProductsResponse)) (category : option string)
    (url : string) (e : JsError) :
  fst (getProducts fetch category) = [url] ->
  (snd (getProducts fetch category) = Rejected e <->
   snd (fetchJson fetch url) = Rejected e).
Proof.
  unfold getProducts. rewrite pretty_limit.
  destruct (falsy category); cbn [fst snd fetchJson]; intros [= <-];
    (destruct (fetch _) as [res|e']; [|split; congruence]);
    (destruct (negb (ok res)); [split; congruence|]);
    (destruct (json res); split; congruence).
Qed.

Example getProducts_sample :
  getProducts sampleServer (Some "men/shoes")
  = ([BASE ++ "/products/category/men%2Fshoes?limit=100"], Resolved sampleProducts).
Proof. vm_compute. reflexivity. Qed.

(** ** The page controller *)

Lemma option_string_eqb_eq (a b : option string) :
  option_string_eqb a b = true <-> a = b.
Proof.
  destruct a as [x|], b as [y|]; cbn; try (split; congruence).
  rewrite String.eqb_eq. split; congruence.
Qed.

Lemma option_string_eqb_neq (a b : option string) :
  option_string_eqb a b = false <-> a <> b.
Proof.
  rewrite <- option_string_eqb_eq. now destruct (option_string_eqb a b).
Qed.

Lemma includes_In (l : list string) (s : string) : includes l s = true <-> In s l.
Proof.
  unfold includes. rewrite existsb_exists. split.
  - intros (x & Hx & ->%String.eqb_eq). exact Hx.
  - intros H. exists s. split; [exact H|apply String.eqb_refl].
Qed.

Lemma writeStateToRoute_filter (st : Page) :
  selectedCategory (writeStateToRoute st) = selectedCategory st /\
  selectedSort (writeStateToRoute st) = selectedSort st /\
  categoriesData (writeStateToRoute st) = categoriesData st /\
  syncing (writeStateToRoute st) = false.
Proof. repeat split. Qed.

Lemma writeStateToRoute_category (st : Page) :
  route_query (writeStateToRoute st) !! "category"
  = match selectedCategory st with
    | None => None
    | Some c => Some (QValue (Some c))
    end.
Proof.
  unfold writeStateToRoute. cbn [route_query set_syncing router_replace].
  assert (Hne : "sort" <> "category") by discriminate.
  destruct (String.eqb (selectedSort st) DEFAULT_SORT);
    [rewrite lookup_delete_ne by exact Hne|rewrite lookup_insert_ne by exact Hne];
    (destruct (selectedCategory st);
     [apply lookup_insert_eq|apply lookup_delete_eq]).
Qed.

Lemma writeStateToRoute_sort (st : Page) :
  route_query (writeStateToRoute st) !! "sort"
  = if String.eqb (selectedSort st) DEFAULT_SORT then None
    else Some (QValue (Some (selectedSort st))).
Proof.
  unfold writeStateToRoute. cbn [route_query set_syncing router_replace].
  destruct (String.eqb (selectedSort st) DEFAULT_SORT);
    [apply lookup_delete_eq|apply lookup_insert_eq].
Qed.

(** C5: in the query that [writeStateToRoute] writes, [category] is present
    exactly when the selected category is not null, and then holds it; [sort]
    is present exactly when the selected sort is not the default, and then
    holds it. *)
Theorem writeStateToRoute_params (st : Page) :
  let q := route_query (writeStateToRoute st) in
  (is_Some (q !! "category") <-> selectedCategory st <> DEFAULT_CATEGORY) /\
  q !! "category" = (fun c => QValue (Some c)) <$> selectedCategory st /\
  (is_Some (q !! "sort") <-> selectedSort st <> DEFAULT_SORT) /\
  q !! "sort" = (if String.eqb (selectedSort st) DEFAULT_SORT then None
                 else Some (QValue (Some (selectedSort st)))).
Proof.
  cbv zeta. rewrite writeStateToRoute_category, writeStateToRoute_sort.
  unfold DEFAULT_CATEGORY.
  split; [|split; [|split]].
  - destruct (selectedCategory st) as [c|]; split.
    + discriminate.
    + eauto.
    + intros [? ?]. discriminate.
    + intros H. contradiction.
  - destruct (selectedCategory st); reflexivity.
  - destruct (String.eqb_spec (selectedSort st) DEFAULT_SORT) as [E|E]; split.
    + intros [? ?]. discriminate.
    + intros H. contradiction.
    + intros _. exact E.
    + eauto.
  - reflexivity.
Qed.

(** C10: [writeStateToRoute] leaves every query parameter other than
    [category] and [sort] as it was. *)
Theorem writeStateToRoute_other_params (st : Page) (k : string) :
  k <> "category" -> k <> "sort" ->
  route_query (writeStateToRoute st) !! k = route_query st !! k.
Proof.
  intros Hc Hs.
  unfold writeStateToRoute. cbn [route_query set_syncing router_replace].
  destruct (String.eqb (selectedSort st) DEFAULT_SORT);
    [rewrite lookup_delete_ne by congruence|rewrite lookup_insert_ne by congruence];
    (destruct (selectedCategory st);
     [rewrite lookup_insert_ne by congruence|rewrite lookup_delete_ne by congruence]);
    reflexivity.
Qed.

Lemma writeStateToRoute_other_params_witness :
  route_query (writeStateToRoute pageLaptops) !! "page" = route_query pageLaptops !! "page".
Proof.
  apply (writeStateToRoute_other_params pageLaptops "page"); discriminate.
Defined.

Example writeStateToRoute_pageLaptops :
  route_query (writeStateToRoute pageLaptops)
  = {[ "category" := QValue (Some "laptops");
       "sort" := QValue (Some "price-desc");
       "page" := QValue (Some "2") ]}.
Proof. vm_compute. reflexivity. Qed.

Lemma set_filter_if_changed (c : option string) (s : SortKey) (st : Page) :
  (if negb (String.eqb s (selectedSort st))
      || negb (option_string_eqb c (selectedCategory st))
   then set_filter c s st else st)
  = set_filter c s st.
Proof.
  destruct (String.eqb_spec s (selectedSort st)) as [Es|Es]; [|reflexivity].
  destruct (option_string_eqb c (selectedCategory st)) eqn:Ec; [|reflexivity].
  apply option_string_eqb_eq in Ec. subst. now destruct st.
Qed.

(** After [readRouteToStateAndClean] the filter state is what the query
    says, whatever it was before. *)
Lemma readRoute_state (st : Page) :
  let rawCategory := asSingleString (route_query st !! "category") in
  let rawSort := asSingleString (route_query st !! "sort") in
  let st' := readRouteToStateAndClean st in
  selectedSort st'
    = (if isSortKey rawSort then default DEFAULT_SORT rawSort else DEFAULT_SORT) /\
  selectedCategory st'
    = (if option_string_eqb rawCategory None || option_string_eqb rawCategory (Some "")
          || option_string_eqb rawCategory (Some "all products")
       then None
       else if (0 <? length (categories st))%nat then
         (if isValidCategoryParam st rawCategory then rawCategory else None)
       else None) /\
  categoriesData st' = categoriesData st.
Proof.
  cbv zeta. unfold readRouteToStateAndClean. cbv zeta.
  rewrite set_filter_if_changed.
  match goal with |- context [if ?b then writeStateToRoute _ else _] => destruct b end;
    repeat split.
Qed.

Lemma isValidCategoryParam_In (st : Page) (c : string) :
  c <> "" -> (isValidCategoryParam st (Some c) = true <-> In c (categories st)).
Proof.
  intros Hc. unfold isValidCategoryParam, falsy.
  destruct (String.eqb_spec c "") as [E|_]; [contradiction|].
  apply includes_In.
Qed.

Lemma length_pos_nonempty {A : Type} (l : list A) :
  (0 <? length l)%nat = true <-> l <> [].
Proof. destruct l; cbn; split; congruence. Qed.

(** *** The invariant of the filter state *)

Lemma readRoute_filter_state_ok (st : Page) :
  filter_state_ok (readRouteToStateAndClean st).
Proof.
  destruct (readRoute_state st) as (Hs & Hc & Hd).
  unfold filter_state_ok, categories. rewrite Hs, Hc, Hd. clear Hs Hc Hd.
  split.
  - destruct (isSortKey (asSingleString (route_query st !! "sort"))) eqn:E;
      [|reflexivity].
    destruct (isSortKey_Some _ E) as [s Es]. rewrite Es in E |- *. exact E.
  - destruct (_ || _ || _) eqn:Esent; [exact I|].
    destruct (0 <? _)%nat; [|exact I].
    destruct (isValidCategoryParam _ _) eqn:Ev; [|exact I].
    destruct (asSingleString (route_query st !! "category")) as [c|]; [|exact I].
    apply isValidCategoryParam_In in Ev; [exact Ev|].
    intros ->. discriminate Esent.
Qed.

Lemma onCategoryChange_filter_state_ok (st : Page) (v : string) :
  filter_state_ok st -> In v (categoryOptions st) ->
  filter_state_ok (onCategoryChange v st).
Proof.
  intros [Hsort Hcat] Hv. unfold filter_state_ok, onCategoryChange.
  destruct (String.eqb_spec v "all products") as [E|E]; cbn; split; try done.
  destruct Hv as [Hv|Hv]; [congruence|exact Hv].
Qed.

Lemma onSortChange_filter_state_ok (st : Page) (v : SortKey) :
  filter_state_ok st -> In v (map value SORT_OPTIONS) ->
  filter_state_ok (onSortChange v st).
Proof.
  intros [Hsort Hcat] Hv. split; [|exact Hcat].
  cbn. apply isSortKey_cases. cbn in Hv. intuition.
Qed.

Lemma step_categories (st st' : Page) : step st st' -> categories st' = categories st.
Proof.
  intros [st0|st0 v Hv|st0 v Hv].
  - unfold categories. now rewrite (proj2 (proj2 (readRoute_state st0))).
  - unfold onCategoryChange. now destruct (String.eqb v _).
  - reflexivity.
Qed.

(** C6: every operation that updates the filter state keeps the invariant:
    the selected sort is one of the four keys and the selected category is
    null or a member of the loaded category list (which the operation does
    not change). *)
Theorem step_preserves_filter_state_ok (st st' : Page) :
  filter_state_ok st -> step st st' ->
  filter_state_ok st' /\ categories st' = categories st.
Proof.
  intros Hok Hstep. split; [|now apply step_categories].
  destruct Hstep as [st|st v Hv|st v Hv].
  - apply readRoute_filter_state_ok.
  - now apply onCategoryChange_filter_state_ok.
  - now apply onSortChange_filter_state_ok.
Qed.

Lemma step_preserves_filter_state_ok_witness :
  filter_state_ok pageLaptops /\
  step pageLaptops (onCategoryChange "smartphones" pageLaptops) /\
  filter_state_ok (onCategoryChange "smartphones" pageLaptops) /\
  categories (onCategoryChange "smartphones" pageLaptops) = categories pageLaptops.
Proof.
  assert (Hok : filter_state_ok pageLaptops).
  { split; [reflexivity|]. right. left. reflexivity. }
  assert (Hstep : step pageLaptops (onCategoryChange "smartphones" pageLaptops)).
  { apply step_category. right. left. reflexivity. }
  split; [exact Hok|]. split; [exact Hstep|].
  exact (step_preserves_filter_state_ok pageLaptops _ Hok Hstep).
Defined.

(** The invariant holds of the page as set up and of every page reached
    from it by the operations. *)
Lemma reachable_filter_state_ok q cs (st : Page) :
  rtc step (initialPage q cs) st -> filter_state_ok st.
Proof.
  intros Hreach.
  assert (Hinit : filter_state_ok (initialPage q cs)) by (split; [reflexivity|exact I]).
  induction Hreach as [st|st1 st2 st3 Hstep _ IH]; [exact Hinit|].
  apply IH. destruct Hstep as [st|st v Hv|st v Hv].
  - apply readRoute_filter_state_ok.
  - now apply onCategoryChange_filter_state_ok.
  - now apply onSortChange_filter_state_ok.
Qed.
(** *** Reading the route *)

(** C4, as stated, fails at [/products?sort=]: an empty sort is not one of
    the four keys, the state keeps its default, and the parameter stays in
    the query. *)
Lemma readRoute_keeps_empty_sort : ~ invalid_params_removed pageEmptySort.
Proof.
  unfold invalid_params_removed. intros [Hsort _].
  destruct (Hsort eq_refl) as [_ Hq].
  vm_compute in Hq. discriminate Hq.
Qed.

Example readRoute_pageEmptySort : readRouteToStateAndClean pageEmptySort = pageEmptySort.
Proof. vm_compute. reflexivity. Qed.

(** Neither watcher that reads the route changes that page, so the filter
    refs do not change and the watcher that writes the route does not run. *)
Example watchers_pageEmptySort :
  onRouteQueryChange pageEmptySort = pageEmptySort /\
  onCategoriesLoaded pageEmptySort = pageEmptySort.
Proof. split; vm_compute; reflexivity. Qed.

(** C4, amended: reading never fails; a sort value that is not one of the
    four keys resets the sort to the default, and the parameter is removed
    when that value is a non-empty string; a category value that is not in
    the category list resets the category to null, and the parameter is
    removed when the list is loaded (non-empty) and the value is a non-empty
    string other than "all products". *)
Theorem readRoute_invalid_params (st : Page) :
  let rawCategory := asSingleString (route_query st !! "category") in
  let rawSort := asSingleString (route_query st !! "sort") in
  let st' := readRouteToStateAndClean st in
  (isSortKey rawSort = false ->
   selectedSort st' = DEFAULT_SORT /\
   (rawSort <> None -> rawSort <> Some "" -> route_query st' !! "sort" = None)) /\
  ((forall c, rawCategory = Some c -> ~ In c (categories st)) ->
   selectedCategory st' = DEFAULT_CATEGORY /\
   (categories st <> [] ->
    rawCategory <> None -> rawCategory <> Some "" -> rawCategory <> Some "all products" ->
    route_query st' !! "category" = None)).
Proof.
  cbv zeta. split.
  - intros Hsort. split.
    + rewrite (proj1 (readRoute_state st)). now rewrite Hsort.
    + intros Hn He.
      unfold readRouteToStateAndClean. cbv zeta.
      rewrite set_filter_if_changed, Hsort.
      rewrite (proj2 (option_string_eqb_neq _ _) Hn).
      rewrite (proj2 (option_string_eqb_neq _ _) He).
      cbn [negb andb]. rewrite orb_true_r.
      now rewrite writeStateToRoute_sort.
  - intros Hcat.
    set (rawCategory := asSingleString (route_query st !! "category")) in *.
    assert (Hinvalid : rawCategory <> None -> rawCategory <> Some "" ->
                       isValidCategoryParam st rawCategory = false).
    { intros Hn He. destruct rawCategory as [c|] eqn:E; [|contradiction].
      apply not_true_iff_false. intros Hv.
      apply isValidCategoryParam_In in Hv; [|congruence].
      exact (Hcat c eq_refl Hv). }
    split.
    + rewrite (proj1 (proj2 (readRoute_state st))). fold rawCategory.
      destruct (option_string_eqb rawCategory None) eqn:En; [reflexivity|].
      destruct (option_string_eqb rawCategory (Some "")) eqn:Ee; [reflexivity|].
      apply option_string_eqb_neq in En, Ee.
      rewrite (Hinvalid En Ee).
      destruct (option_string_eqb rawCategory (Some "all products"));
        cbn [orb]; [reflexivity|].
      destruct (0 <? length (categories st))%nat; reflexivity.
    + intros Hloaded Hn He Hall.
      unfold readRouteToStateAndClean. cbv zeta. fold rawCategory.
      rewrite set_filter_if_changed.
      change (categories (set_filter _ _ st)) with (categories st).
      change (isValidCategoryParam (set_filter _ _ st) rawCategory)
        with (isValidCategoryParam st rawCategory).
      rewrite (Hinvalid Hn He).
      rewrite (proj2 (option_string_eqb_neq _ _) Hn).
      rewrite (proj2 (option_string_eqb_neq _ _) He).
      rewrite (proj2 (option_string_eqb_neq _ _) Hall).
      rewrite (proj2 (length_pos_nonempty _) Hloaded).
      cbn [negb andb orb].
      now rewrite writeStateToRoute_category.
Qed.

Lemma readRoute_invalid_params_witness :
  isSortKey (asSingleString (route_query pageBadParams !! "sort")) = false /\
  selectedSort (readRouteToStateAndClean pageBadParams) = DEFAULT_SORT /\
  route_query (readRouteToStateAndClean pageBadParams) !! "sort" = None /\
  selectedCategory (readRouteToStateAndClean pageBadParams) = DEFAULT_CATEGORY /\
  route_query (readRouteToStateAndClean pageBadParams) !! "category" = None.
Proof.
  destruct (readRoute_invalid_params pageBadParams) as [Hsort Hcat].
  assert (Hs : isSortKey (asSingleString (route_query pageBadParams !! "sort")) = false)
    by reflexivity.
  destruct (Hsort Hs) as [Hs1 Hs2].
  destruct Hcat as [Hc1 Hc2].
  { intros c Hc. vm_compute in Hc. injection Hc as <-.
    cbn. intros [H|[H|[]]]; discriminate H. }
  split; [exact Hs|]. split; [exact Hs1|]. split.
  - apply Hs2; vm_compute; discriminate.
  - split; [exact Hc1|]. apply Hc2; vm_compute; discriminate.
Defined.

Example readRoute_pageBadParams :
  readRouteToStateAndClean pageBadParams
  = initialPage {[ "page" := QValue (Some "2") ]} (Some sampleCategories).
Proof. vm_compute. reflexivity. Qed.

(** While the categories are loading, cleaning an unknown sort writes the
    state back with the category still at its default, so a category
    parameter that waits for validation leaves the query with it. *)
Example readRoute_pendingCategory :
  route_query (readRouteToStateAndClean pagePendingCategory) = ∅.
Proof. vm_compute. reflexivity. Qed.

(** *** Writing, then reading *)

Example pageEmptyCategory_state :
  selectedCategory pageEmptyCategory = Some "" /\
  selectedSort pageEmptyCategory = "title-asc" /\
  step (initialPage ∅ (Some ["smartphones"; ""])) pageEmptyCategory.
Proof.
  repeat split. apply step_category. right. right. left. reflexivity.
Qed.

(** C3, as stated, fails when the category list has the empty name and it is
    the selected category: it is written as [category=] and read back as
    null. *)
Lemma roundtrip_loses_empty_category : ~ roundtrips pageEmptyCategory.
Proof.
  unfold roundtrips. intros H.
  destruct H as [Hc _].
  - split; [reflexivity|]. right. left. reflexivity.
  - discriminate.
  - vm_compute in Hc. discriminate Hc.
Qed.

(** C3, amended: a filter state whose sort is one of the four keys and whose
    category is null or a member of the category list other than the empty
    string and "all products" is restored by writing it to the query and
    reading that query back, into any state of the page with the same
    category list; the reading leaves the query as written. *)
Theorem write_read_roundtrip (st st' : Page) :
  isSortKey (Some (selectedSort st)) = true ->
  (forall c, selectedCategory st = Some c ->
             In c (categories st) /\ c <> "" /\ c <> "all products") ->
  route_query st' = route_query (writeStateToRoute st) ->
  categories st' = categories st ->
  selectedCategory (readRouteToStateAndClean st') = selectedCategory st /\
  selectedSort (readRouteToStateAndClean st') = selectedSort st /\
  route_query (readRouteToStateAndClean st') = route_query st'.
Proof.
  intros Hsort Hcat Hq Hcs.
  assert (HrawC : asSingleString (route_query st' !! "category") = selectedCategory st).
  { rewrite Hq, writeStateToRoute_category. now destruct (selectedCategory st). }
  assert (HrawS : isSortKey (asSingleString (route_query st' !! "sort"))
                  = negb (String.eqb (selectedSort st) DEFAULT_SORT) /\
                  default DEFAULT_SORT (asSingleString (route_query st' !! "sort"))
                  = selectedSort st).
  { rewrite Hq, writeStateToRoute_sort.
    destruct (String.eqb_spec (selectedSort st) DEFAULT_SORT) as [E|E]; cbn.
    - now rewrite E.
    - split; [exact Hsort|reflexivity]. }
  destruct HrawS as [HkeyS HdefS].
  assert (Hvalid : forall c, selectedCategory st = Some c ->
            option_string_eqb (Some c) (Some "") = false /\
            option_string_eqb (Some c) (Some "all products") = false /\
            (0 <? length (categories st'))%nat = true /\
            isValidCategoryParam st' (Some c) = true).
  { intros c Hc. destruct (Hcat c Hc) as (Hin & He & Hall).
    split; [apply option_string_eqb_neq; congruence|].
    split; [apply option_string_eqb_neq; congruence|].
    rewrite <- Hcs in Hin. split.
    - apply length_pos_nonempty. intros E. rewrite E in Hin. exact Hin.
    - now apply isValidCategoryParam_In. }
  assert (Hstate : selectedCategory (readRouteToStateAndClean st') = selectedCategory st /\
                   selectedSort (readRouteToStateAndClean st') = selectedSort st).
  { destruct (readRoute_state st') as (Hs & Hc & _). rewrite Hs, Hc, HrawC, HkeyS, HdefS.
    split.
    - destruct (selectedCategory st) as [c|] eqn:Ec; [|reflexivity].
      destruct (Hvalid c eq_refl) as (-> & -> & -> & ->). reflexivity.
    - destruct (String.eqb_spec (selectedSort st) DEFAULT_SORT) as [E|E];
        cbn [negb]; congruence. }
  destruct Hstate as [HC HS]. split; [exact HC|]. split; [exact HS|].
  unfold readRouteToStateAndClean. cbv zeta.
  rewrite set_filter_if_changed.
  change (categories (set_filter _ _ st')) with (categories st').
  match goal with
  | |- context [isValidCategoryParam (set_filter ?c ?s st') ?r] =>
      change (isValidCategoryParam (set_filter c s st') r)
        with (isValidCategoryParam st' r)
  end.
  rewrite HrawC, HkeyS.
  assert (Hnoclean_c :
    (0 <? length (categories st'))%nat
    && negb (option_string_eqb (selectedCategory st) None)
    && negb (option_string_eqb (selectedCategory st) (Some ""))
    && negb (option_string_eqb (selectedCategory st) (Some "all products"))
    && negb (isValidCategoryParam st' (selectedCategory st)) = false).
  { destruct (selectedCategory st) as [c|] eqn:Ec.
    - destruct (Hvalid c eq_refl) as (-> & -> & -> & ->). reflexivity.
    - cbn. now rewrite andb_false_r. }
  rewrite Hnoclean_c.
  destruct (String.eqb (selectedSort st) DEFAULT_SORT) eqn:E; cbn [negb andb orb].
  - assert (Hnone : asSingleString (route_query st' !! "sort") = None).
    { rewrite Hq, writeStateToRoute_sort, E. reflexivity. }
    rewrite Hnone. reflexivity.
  - rewrite !andb_false_r. reflexivity.
Qed.

Lemma write_read_roundtrip_witness :
  selectedCategory (readRouteToStateAndClean (writeStateToRoute pageLaptops)) = Some "laptops" /\
  selectedSort (readRouteToStateAndClean (writeStateToRoute pageLaptops)) = "price-desc" /\
  route_query (readRouteToStateAndClean (writeStateToRoute pageLaptops))
  = route_query (writeStateToRoute pageLaptops).
Proof.
  apply (write_read_roundtrip pageLaptops (writeStateToRoute pageLaptops)).
  - reflexivity.
  - intros c Hc. injection Hc as <-.
    split; [right; left; reflexivity|]. split; discriminate.
  - reflexivity.
  - reflexivity.
Defined.

Example write_read_reload :
  readRouteToStateAndClean
    (initialPage (route_query (writeStateToRoute pageLaptops)) (Some sampleCategories))
  = writeStateToRoute pageLaptops.
Proof. vm_compute. reflexivity. Qed.

(** * Further properties *)

(** ** The sort utility, continued *)

(** A list that is already in order is left as it is. *)
Lemma Array_sort_in_order {A : Type} (comparefn : A -> A -> number) (l : list A) :
  StronglySorted (in_order comparefn) l -> Array_sort comparefn l = l.
Proof.
  induction 1 as [|a l Hl IH Ha]; [reflexivity|].
  cbn [Array_sort]. rewrite IH.
  destruct l as [|b l']; [reflexivity|].
  cbn [sort_insert]. apply List.Forall_inv in Ha.
  unfold in_order in Ha. apply Qle_bool_iff in Ha. now rewrite Ha.
Qed.

Lemma StronglySorted_app_inv {A : Type} (R : A -> A -> Prop) (l1 l2 : list A) :
  StronglySorted R (l1 ++ l2) ->
  StronglySorted R l1 /\ StronglySorted R l2 /\
  (forall x y, In x l1 -> In y l2 -> R x y).
Proof.
  induction l1 as [|a l1 IH]; cbn [app]; intros H.
  - split; [constructor|]. split; [exact H|]. intros x y [].
  - apply StronglySorted_inv in H. destruct H as [Hs Ha].
    destruct (IH Hs) as (H1 & H2 & H12).
    rewrite List.Forall_forall in Ha.
    split; [|split; [exact H2|]].
    + constructor; [exact H1|]. apply List.Forall_forall.
      intros x Hx. apply Ha, in_or_app. now left.
    + intros x y [<-|Hx] Hy; [|now apply H12].
      apply Ha, in_or_app. now right.
Qed.

Section SortProductsMore.
Variable localeCompare : string -> string -> number.

(** [sortProducts] and [visibleProducts] give a list exactly for the four
    keys that [isSortKey] accepts; for any other string the [switch] falls
    through. *)
Theorem sortProducts_defined_iff (items : list Product) (data : option (list Product))
    (sort : SortKey) :
  (is_Some (sortProducts localeCompare items sort) <-> isSortKey (Some sort) = true) /\
  (is_Some (visibleProducts localeCompare data sort) <-> isSortKey (Some sort) = true).
Proof.
  assert (H : forall l, is_Some (sortProducts localeCompare l sort)
                        <-> isSortKey (Some sort) = true).
  { intros l. rewrite isSortKey_cases. unfold sortProducts.
    destruct (String.eqb_spec sort "price-asc") as [E1|E1]; [split; eauto|].
    destruct (String.eqb_spec sort "price-desc") as [E2|E2]; [split; eauto|].
    destruct (String.eqb_spec sort "title-asc") as [E3|E3]; [split; eauto|].
    destruct (String.eqb_spec sort "title-desc") as [E4|E4]; [split; eauto|].
    split; [intros [? ?]; discriminate|]. intuition. }
  split; [apply H|].
  rewrite <- (H (default [] data)). unfold visibleProducts.
  destruct (sortProducts localeCompare (default [] data) sort); split; eauto.
Qed.

Hypothesis localeCompare_consistent : consistent localeCompare.

(** Each case of [sortProducts] sorts with a consistent comparator whose
    order is the order of the key. *)
Lemma sortProducts_comparator (items : list Product) (sort : SortKey)
    (sorted : list Product) :
  sortProducts localeCompare items sort = Some sorted ->
  exists comparefn,
    consistent comparefn /\
    (forall l, sortProducts localeCompare l sort = Some (Array_sort comparefn l)) /\
    (forall a b, in_order comparefn a b -> ordered_by localeCompare sort a b).
Proof.
  destruct localeCompare_consistent as [Hflip Htrans].
  unfold sortProducts, ordered_by, in_order. intros H.
  destruct (String.eqb sort "price-asc").
  { exists (fun a b => price a - price b)%Q.
    split; [split; intros; lra|]. split; [reflexivity|]. intros a b. lra. }
  destruct (String.eqb sort "price-desc").
  { exists (fun a b => price b - price a)%Q.
    split; [split; intros; lra|]. split; [reflexivity|]. intros a b. lra. }
  destruct (String.eqb sort "title-asc").
  { exists (fun a b => localeCompare (title a) (title b)).
    split; [split; intros; eauto|]. split; [reflexivity|]. intros a b Hab. exact Hab. }
  destruct (String.eqb sort "title-desc"); [|discriminate].
  exists (fun a b => localeCompare (title b) (title a)).
  split; [split; intros; eauto|]. split; [reflexivity|].
  intros a b Hab.
  destruct (Qlt_le_dec (localeCompare (title a) (title b)) 0) as [Hlt|Hge];
    [|exact Hge].
  apply Hflip in Hlt. lra.
Qed.

(** Sorting is idempotent: sorting the result again by the same key returns
    it unchanged. *)
Theorem sortProducts_idempotent (items sorted : list Product) (sort : SortKey) :
  sortProducts localeCompare items sort = Some sorted ->
  sortProducts localeCompare sorted sort = Some sorted.
Proof.
  intros H.
  destruct (sortProducts_comparator items sort sorted H)
    as (comparefn & [Hflip Htrans] & Hsort & _).
  rewrite Hsort in H. injection H as <-.
  rewrite Hsort. f_equal.
  apply Array_sort_in_order. now apply Array_sort_sorted.
Qed.

(** The visible list is a least part of the data: it is ordered by the key,
    together with the products left out it makes up the data, and each
    visible product is ordered before each product left out. *)
Theorem visibleProducts_least (data : option (list Product)) (sort : SortKey)
    (visible : list Product) :
  visibleProducts localeCompare data sort = Some visible ->
  exists rest,
    Permutation (visible ++ rest) (default [] data) /\
    StronglySorted (ordered_by localeCompare sort) visible /\
    (forall v r, In v visible -> In r rest -> ordered_by localeCompare sort v r).
Proof.
  unfold visibleProducts.
  destruct (sortProducts localeCompare (default [] data) sort) as [sorted|] eqn:Hs;
    [|discriminate].
  intros [= <-].
  destruct (sortProducts_comparator _ _ _ Hs) as (comparefn & [Hflip Htrans] & Hsort & Hord).
  rewrite Hsort in Hs. injection Hs as <-.
  change 10%Z with (Z.of_nat 10). rewrite Array_slice_0.
  set (sorted := Array_sort comparefn (default [] data)).
  exists (skipn 10 sorted).
  assert (Hsorted : StronglySorted (ordered_by localeCompare sort)
                      (firstn 10 sorted ++ skipn 10 sorted)).
  { rewrite firstn_skipn. eapply StronglySorted_impl; [exact Hord|].
    now apply Array_sort_sorted. }
  apply StronglySorted_app_inv in Hsorted. destruct Hsorted as (H1 & _ & H12).
  split; [|split; [exact H1|exact H12]].
  rewrite firstn_skipn. apply Array_sort_perm.
Qed.
End SortProductsMore.

Lemma ordinalCompare_consistent : consistent ordinalCompare.
Proof. split; [apply ordinalCompare_flip|apply ordinalCompare_trans]. Qed.

(** What [sortProducts] returns is ordered by the key and keeps the input
    order of the products that compare equal, when [localeCompare] is a
    consistent comparator. *)
Lemma sortProducts_ordered_stable (localeCompare : string -> string -> number)
    (items sorted : list Product) (sort : SortKey) :
  consistent localeCompare ->
  sortProducts localeCompare items sort = Some sorted ->
  StronglySorted (ordered_by localeCompare sort) sorted /\
  (forall x,
      List.filter (same_key localeCompare sort x) sorted
      = List.filter (same_key localeCompare sort x) items).
Proof.
  intros [Hflip Htrans] H. unfold sortProducts in H.
  destruct (String.eqb_spec sort "price-asc") as [-> | _].
  { injection H as <-.
    refine (proj2 (Array_sort_spec _ (ordered_by localeCompare "price-asc")
                     (same_key localeCompare "price-asc") items _ _ _ _)).
    - intros a b. lra.
    - intros a b c. lra.
    - intros a b. unfold in_order. cbn. lra.
    - intros x y. unfold ties. cbn. symmetry. apply Qeq_bool_diff. }
  destruct (String.eqb_spec sort "price-desc") as [-> | _].
  { injection H as <-.
    refine (proj2 (Array_sort_spec _ (ordered_by localeCompare "price-desc")
                     (same_key localeCompare "price-desc") items _ _ _ _)).
    - intros a b. lra.
    - intros a b c. lra.
    - intros a b. unfold in_order. cbn. lra.
    - intros x y. unfold ties. cbn.
      rewrite Qeq_bool_diff. apply Qeq_bool_swap. }
  destruct (String.eqb_spec sort "title-asc") as [-> | _].
  { injection H as <-.
    refine (proj2 (Array_sort_spec _ (ordered_by localeCompare "title-asc")
                     (same_key localeCompare "title-asc") items _ _ _ _)).
    - intros a b. apply Hflip.
    - intros a b c. apply Htrans.
    - intros a b Hab. exact Hab.
    - intros x y. reflexivity. }
  destruct (String.eqb_spec sort "title-desc") as [-> | _]; [|discriminate H].
  injection H as <-.
  refine (proj2 (Array_sort_spec _ (ordered_by localeCompare "title-desc")
                   (same_key localeCompare "title-desc") items _ _ _ _)).
  - intros a b. apply Hflip.
  - intros a b c H1 H2. now apply (Htrans (title c) (title b) (title a)).
  - intros a b. unfold in_order. cbn. intros Hab.
    destruct (Qlt_le_dec (localeCompare (title a) (title b)) 0) as [Hlt|Hge];
      [|exact Hge].
    apply Hflip in Hlt. lra.
  - intros x y. unfold ties. cbn. now apply localeCompare_zero_sym.
Qed.

(** C1: for a valid sort key the visible list is the first 10 elements of
    the sorted list, which is what [sortProducts] returns for the data of
    the products query: a permutation of the data that, for a consistent
    [localeCompare], is ordered by the selected key with the products that
    compare equal in their input order.  The visible list is all of the
    sorted list when the data has at most 10 products, and it never has more
    than 10. *)
Theorem visibleProducts_top10 (localeCompare : string -> string -> number)
    (data : option (list Product)) (sort : SortKey) :
  isSortKey (Some sort) = true ->
  exists sorted,
    sortProducts localeCompare (default [] data) sort = Some sorted /\
    Permutation sorted (default [] data) /\
    (consistent localeCompare ->
     StronglySorted (ordered_by localeCompare sort) sorted /\
     (forall x,
         List.filter (same_key localeCompare sort x) sorted
         = List.filter (same_key localeCompare sort x) (default [] data))) /\
    visibleProducts localeCompare data sort = Some (firstn 10 sorted) /\
    length (firstn 10 sorted) = Nat.min 10 (length (default [] data)) /\
    (length (firstn 10 sorted) <= 10)%nat /\
    ((length (default [] data) <= 10)%nat -> firstn 10 sorted = sorted).
Proof.
  intros Hsort.
  destruct (sortProducts_is_Some localeCompare (default [] data) sort Hsort)
    as [sorted Hs].
  exists sorted. split; [exact Hs|].
  pose proof (sortProducts_perm _ _ _ _ Hs) as Hperm.
  pose proof (Permutation_length Hperm) as Hlen.
  split; [exact Hperm|].
  split; [intros Hc; now apply (sortProducts_ordered_stable localeCompare _ _ _ Hc)|].
  split.
  - unfold visibleProducts. rewrite Hs.
    exact (f_equal Some (Array_slice_0 sorted 10)).
  - rewrite length_firstn, Hlen. repeat split; [lia|].
    intros Hle. apply firstn_all2. lia.
Qed.

Lemma visibleProducts_top10_witness :
  isSortKey (Some "price-asc") = true /\
  exists sorted,
    sortProducts ordinalCompare sampleCatalogue "price-asc" = Some sorted /\
    Permutation sorted sampleCatalogue /\
    StronglySorted (ordered_by ordinalCompare "price-asc") sorted /\
    (forall x,
        List.filter (same_key ordinalCompare "price-asc" x) sorted
        = List.filter (same_key ordinalCompare "price-asc" x) sampleCatalogue) /\
    visibleProducts ordinalCompare (Some sampleCatalogue) "price-asc"
      = Some (firstn 10 sorted) /\
    length (firstn 10 sorted) = 10%nat /\
    length sorted = 12%nat.
Proof.
  split; [reflexivity|].
  destruct (visibleProducts_top10 ordinalCompare (Some sampleCatalogue) "price-asc" eq_refl)
    as (sorted & Hs & Hperm & Hcons & Hvis & Hlen & _).
  destruct (Hcons ordinalCompare_consistent) as [Hord Hstable].
  exists sorted.
  split; [exact Hs|]. split; [exact Hperm|]. split; [exact Hord|].
  split; [exact Hstable|]. split; [exact Hvis|]. split; [exact Hlen|].
  exact (Permutation_length Hperm).
Defined.

(** Of the twelve, the ten cheapest are shown, equal prices in input order;
    the two dearest are cut. *)
Example visibleProducts_sampleCatalogue :
  option_map (map id) (visibleProducts ordinalCompare (Some sampleCatalogue) "price-asc")
  = Some (map inject_Z [4; 5; 12; 9; 7; 10; 11; 6; 8; 1]%Z).
Proof. vm_compute. reflexivity. Qed.

Lemma sortProducts_idempotent_witness :
  exists sorted,
    sortProducts ordinalCompare sampleProducts "title-asc" = Some sorted /\
    sortProducts ordinalCompare sorted "title-asc" = Some sorted.
Proof.
  eexists. split; [reflexivity|].
  apply (sortProducts_idempotent ordinalCompare ordinalCompare_consistent sampleProducts).
  reflexivity.
Defined.

Lemma visibleProducts_least_witness :
  exists visible rest,
    visibleProducts ordinalCompare (Some sampleProducts) "price-asc" = Some visible /\
    Permutation (visible ++ rest) sampleProducts /\
    StronglySorted (ordered_by ordinalCompare "price-asc") visible /\
    (forall v r, In v visible -> In r rest -> ordered_by ordinalCompare "price-asc" v r).
Proof.
  destruct (visibleProducts_least ordinalCompare ordinalCompare_consistent
              (Some sampleProducts) "price-asc" _ eq_refl) as (rest & H).
  eexists. exists rest. split; [reflexivity|exact H].
Defined.

(** ** The API client, continued *)

Lemma nat_of_ascii_lt (c : ascii) : (nat_of_ascii c < 256)%nat.
Proof.
  destruct c as [[] [] [] [] [] [] [] []]; vm_compute; lia.
Qed.

Lemma hexDigit_table :
  forallb (fun a =>
    uriUnreserved (hexDigit a)
    && forallb (fun b => implb (Ascii.eqb (hexDigit a) (hexDigit b)) (a =? b)%nat)
               (seq 0 16))
    (seq 0 16) = true.
Proof. vm_compute. reflexivity. Qed.

Lemma hexDigit_unreserved (n : nat) : (n < 16)%nat -> uriUnreserved (hexDigit n) = true.
Proof.
  intros Hn. pose proof hexDigit_table as H.
  rewrite forallb_forall in H.
  destruct (andb_prop _ _ (H n (proj2 (in_seq 16 0 n) ltac:(lia)))) as [Hu _].
  exact Hu.
Qed.

Lemma hexDigit_inj (a b : nat) :
  (a < 16)%nat -> (b < 16)%nat -> hexDigit a = hexDigit b -> a = b.
Proof.
  intros Ha Hb E. pose proof hexDigit_table as H.
  rewrite forallb_forall in H.
  destruct (andb_prop _ _ (H a (proj2 (in_seq 16 0 a) ltac:(lia)))) as [_ Hi].
  rewrite forallb_forall in Hi.
  specialize (Hi b (proj2 (in_seq 16 0 b) ltac:(lia))).
  rewrite E, Ascii.eqb_refl in Hi. cbn [implb] in Hi.
  now apply Nat.eqb_eq.
Qed.

Lemma percent_reserved : uriUnreserved "%" = false.
Proof. reflexivity. Qed.

(** The encoding has unreserved characters and percent signs only. *)
Lemma encodeURIComponent_safe (s : string) :
  Forall (fun c => uriUnreserved c = true \/ c = "%"%char)
         (list_ascii_of_string (encodeURIComponent s)).
Proof.
  induction s as [|c s IH]; cbn [encodeURIComponent list_ascii_of_string];
    [constructor|].
  destruct (uriUnreserved c) eqn:Ec; cbn [list_ascii_of_string].
  - constructor; [now left|exact IH].
  - pose proof (nat_of_ascii_lt c) as Hc.
    constructor; [now right|].
    constructor; [left; apply hexDigit_unreserved, Nat.Div0.div_lt_upper_bound; lia|].
    constructor; [left; apply hexDigit_unreserved, Nat.mod_upper_bound; lia|].
    exact IH.
Qed.

(** Different strings have different encodings. *)
Lemma encodeURIComponent_inj (a b : string) :
  encodeURIComponent a = encodeURIComponent b -> a = b.
Proof.
  revert b. induction a as [|c a IH]; intros [|d b]; cbn [encodeURIComponent].
  - reflexivity.
  - destruct (uriUnreserved d); discriminate.
  - destruct (uriUnreserved c); discriminate.
  - destruct (uriUnreserved c) eqn:Ec, (uriUnreserved d) eqn:Ed.
    + intros [= -> H]. f_equal. now apply IH.
    + intros [= -> _]. rewrite percent_reserved in Ec. discriminate.
    + intros [= <- _]. rewrite percent_reserved in Ed. discriminate.
    + intros [= Hhi Hlo H].
      change (hexDigit (nat_of_ascii c / 16) = hexDigit (nat_of_ascii d / 16)) in Hhi.
      change (hexDigit (nat_of_ascii c mod 16) = hexDigit (nat_of_ascii d mod 16)) in Hlo.
      pose proof (nat_of_ascii_lt c) as Hc. pose proof (nat_of_ascii_lt d) as Hd.
      apply hexDigit_inj in Hhi;
        [|apply Nat.Div0.div_lt_upper_bound; lia|apply Nat.Div0.div_lt_upper_bound; lia].
      apply hexDigit_inj in Hlo; [|apply Nat.mod_upper_bound; lia|apply Nat.mod_upper_bound; lia].
      assert (Hn : nat_of_ascii c = nat_of_ascii d).
      { rewrite (Nat.div_mod_eq (nat_of_ascii c) 16), (Nat.div_mod_eq (nat_of_ascii d) 16).
        now rewrite Hhi, Hlo. }
      f_equal; [|now apply IH].
      rewrite <- (ascii_nat_embedding c), <- (ascii_nat_embedding d). now rewrite Hn.
Qed.

Lemma append_inv_head (p a b : string) : p ++ a = p ++ b -> a = b.
Proof.
  induction p as [|c p IH]; cbn [append]; [auto|].
  intros [= H]. now apply IH.
Qed.

Lemma list_ascii_of_string_append (a b : string) :
  list_ascii_of_string (a ++ b) = (list_ascii_of_string a ++ list_ascii_of_string b)%list.
Proof.
  induction a as [|c a IH]; simpl; [reflexivity|].
  now rewrite IH.
Qed.

Lemma append_inv_tail (a b s : string) : a ++ s = b ++ s -> a = b.
Proof.
  intros H. apply (f_equal list_ascii_of_string) in H.
  rewrite !list_ascii_of_string_append in H.
  apply List.app_inv_tail in H.
  rewrite <- (string_of_list_ascii_of_string a), <- (string_of_list_ascii_of_string b).
  now rewrite H.
Qed.

Lemma getProducts_category_url (fetch : string -> Promise (Response ProductsResponse))
    (c : string) :
  c <> "" ->
  fst (getProducts fetch (Some c))
  = [BASE ++ "/products/category/" ++ encodeURIComponent c ++ "?limit=100"].
Proof.
  intros Hc. unfold getProducts, fetchJson, falsy.
  destruct (String.eqb_spec c "") as [E|_]; [contradiction|].
  cbn [fst default]. now rewrite pretty_limit.
Qed.

Lemma getProducts_all_url (fetch : string -> Promise (Response ProductsResponse))
    (category : option string) :
  falsy category = true ->
  fst (getProducts fetch category) = [BASE ++ "/products?limit=100"].
Proof.
  intros Hc. unfold getProducts, fetchJson. rewrite Hc.
  cbn [fst]. now rewrite pretty_limit.
Qed.

Lemma category_url_not_all (e : string) :
  [BASE ++ "/products/category/" ++ e ++ "?limit=100"] <> [BASE ++ "/products?limit=100"].
Proof.
  intros H. apply (f_equal (hd "")) in H. cbn [hd] in H.
  apply (append_inv_head BASE) in H.
  apply (append_inv_head "/products") in H.
  discriminate H.
Qed.

(** The URL that [getProducts] requests tells the categories apart: two
    categories with the same URL are the same, and no category shares the
    URL of the request for all products. *)
Theorem getProducts_url_inj
    (fetch : string -> Promise (Response ProductsResponse)) (c1 c2 : string) :
  c1 <> "" -> c2 <> "" ->
  (fst (getProducts fetch (Some c1)) = fst (getProducts fetch (Some c2)) -> c1 = c2) /\
  fst (getProducts fetch (Some c1)) <> fst (getProducts fetch None).
Proof.
  intros H1 H2.
  rewrite (getProducts_category_url fetch c1 H1), (getProducts_category_url fetch c2 H2).
  rewrite (getProducts_all_url fetch None eq_refl).
  split; [|apply category_url_not_all].
  intros H. apply (f_equal (hd "")) in H. cbn [hd] in H.
  apply (append_inv_head BASE) in H.
  apply (append_inv_head "/products/category/") in H.
  apply append_inv_tail in H.
  now apply encodeURIComponent_inj.
Qed.

(** The characters of the category segment: the URL requested for a
    category is the prefix [{base}/products/category/], a segment made of
    unreserved characters and percent signs only (so without slash, question
    mark, hash, ampersand or space), and the suffix [?limit=100].  A category
    of unreserved characters only is its own segment: dots are unreserved,
    so the dot segments [.] and [..] go into the path as they are. *)
Theorem getProducts_segment_chars
    (fetch : string -> Promise (Response ProductsResponse)) (c : string) :
  c <> "" ->
  exists segment,
    fst (getProducts fetch (Some c))
    = [BASE ++ "/products/category/" ++ segment ++ "?limit=100"] /\
    Forall (fun ch => uriUnreserved ch = true \/ ch = "%"%char)
           (list_ascii_of_string segment) /\
    Forall (fun ch => ~ In ch (list_ascii_of_string "/?#& "))
           (list_ascii_of_string segment) /\
    (forallb uriUnreserved (list_ascii_of_string c) = true -> segment = c).
Proof.
  intros Hc. exists (encodeURIComponent c).
  split; [now apply getProducts_category_url|].
  pose proof (encodeURIComponent_safe c) as Hsafe.
  split; [exact Hsafe|].
  split; [|apply encodeURIComponent_unreserved].
  eapply List.Forall_impl; [|exact Hsafe].
  intros ch [Hu | ->] Hin; cbn in Hin;
    [|intuition discriminate].
  destruct Hin as [<-|[<-|[<-|[<-|[<-|[]]]]]]; discriminate Hu.
Qed.

Lemma getProducts_segment_chars_witness :
  exists segment,
    fst (getProducts sampleServer (Some "men/shoes & more"))
    = [BASE ++ "/products/category/" ++ segment ++ "?limit=100"] /\
    Forall (fun ch => uriUnreserved ch = true \/ ch = "%"%char)
           (list_ascii_of_string segment) /\
    Forall (fun ch => ~ In ch (list_ascii_of_string "/?#& "))
           (list_ascii_of_string segment) /\
    (forallb uriUnreserved (list_ascii_of_string "men/shoes & more") = true ->
     segment = "men/shoes & more").
Proof.
  apply (getProducts_segment_chars sampleServer "men/shoes & more"). discriminate.
Defined.

(** The category [..] is requested as the dot segment it is. *)
Example getProducts_dot_segment :
  fst (getProducts sampleServer (Some ".."))
  = [BASE ++ "/products/category/..?limit=100"].
Proof. vm_compute. reflexivity. Qed.

Lemma getProducts_url_inj_witness :
  (fst (getProducts sampleServer (Some "men/shoes"))
   = fst (getProducts sampleServer (Some "laptops")) -> "men/shoes" = "laptops") /\
  fst (getProducts sampleServer (Some "men/shoes")) <> fst (getProducts sampleServer None).
Proof.
  apply (getProducts_url_inj sampleServer "men/shoes" "laptops"); discriminate.
Defined.

(** [getProducts] resolves exactly when the server answers its request with
    a 2xx status and a body that parses, and then with the [products] of
    that body; a failure of [fetch] itself is passed on as it is. *)
Theorem getProducts_resolved
    (fetch : string -> Promise (Response ProductsResponse)) (category : option string)
    (url : string) :
  fst (getProducts fetch category) = [url] ->
  (forall ps,
      snd (getProducts fetch category) = Resolved ps <->
      exists res data,
        fetch url = Resolved res /\ (200 <= status res <= 299)%Z /\
        json res = Some data /\ ps = products data) /\
  (forall e, fetch url = Rejected e -> snd (getProducts fetch category) = Rejected e).
Proof.
  unfold getProducts. rewrite pretty_limit.
  assert (H : forall u,
    (forall ps,
      match snd (fetchJson fetch u) with
      | Resolved data => Resolved (products data)
      | Rejected e => Rejected e
      end = Resolved ps <->
      exists res data,
        fetch u = Resolved res /\ (200 <= status res <= 299)%Z /\
        json res = Some data /\ ps = products data) /\
    (forall e, fetch u = Rejected e ->
      match snd (fetchJson fetch u) with
      | Resolved data => Resolved (products data)
      | Rejected e => Rejected e
      end = Rejected e)).
  { intros u. unfold fetchJson. cbn [snd]. split.
    - intros ps. destruct (fetch u) as [res|e].
      + destruct (ok res) eqn:Eok; cbn [negb].
        * apply ok_2xx in Eok. destruct (json res) as [data|] eqn:Ej.
          -- split.
             ++ intros [= <-]. now exists res, data.
             ++ intros (res' & data' & [= <-] & _ & Ej' & ->). congruence.
          -- split; [discriminate|].
             intros (res' & data' & [= <-] & _ & Ej' & _). congruence.
        * split; [discriminate|].
          intros (res' & data' & [= <-] & H2xx & _). apply ok_2xx in H2xx. congruence.
      + split; [discriminate|]. intros (res' & data' & Hf & _). discriminate.
    - intros e ->. reflexivity. }
  destruct (falsy category); cbn [fst snd fetchJson]; intros [= <-]; apply H.
Qed.

Lemma getProducts_resolved_witness :
  snd (getProducts sampleServer None) = Resolved sampleProducts <->
  exists res data,
    sampleServer (BASE ++ "/products?limit=100") = Resolved res /\
    (200 <= status res <= 299)%Z /\ json res = Some data /\ sampleProducts = products data.
Proof.
  apply (getProducts_resolved sampleServer None (BASE ++ "/products?limit=100")).
  reflexivity.
Defined.

(** ** The page controller, continued *)

Lemma readRoute_unfold (st : Page) :
  readRouteToStateAndClean st
  = if needsCleanOf st
    then writeStateToRoute (set_filter (nextCategoryOf st) (nextSortOf st) st)
    else set_filter (nextCategoryOf st) (nextSortOf st) st.
Proof.
  unfold readRouteToStateAndClean. cbv zeta.
  rewrite set_filter_if_changed. reflexivity.
Qed.

Lemma set_filter_same (st : Page) :
  set_filter (selectedCategory st) (selectedSort st) st = st.
Proof. now destruct st. Qed.

Lemma nextSortOf_isSortKey (st : Page) : isSortKey (Some (nextSortOf st)) = true.
Proof.
  unfold nextSortOf. destruct (isSortKey (rawSortOf st)) eqn:E; [|reflexivity].
  destruct (isSortKey_Some _ E) as [s Es]. rewrite Es in E |- *. exact E.
Qed.

Lemma nextCategoryOf_strict (st : Page) (c : string) :
  nextCategoryOf st = Some c ->
  rawCategoryOf st = Some c /\ In c (categories st) /\ c <> "" /\ c <> "all products".
Proof.
  unfold nextCategoryOf.
  destruct (option_string_eqb (rawCategoryOf st) None) eqn:En; [discriminate|].
  destruct (option_string_eqb (rawCategoryOf st) (Some "")) eqn:Ee; [discriminate|].
  destruct (option_string_eqb (rawCategoryOf st) (Some "all products")) eqn:Ea;
    [discriminate|].
  cbn [orb].
  destruct (0 <? length (categories st))%nat; [|discriminate].
  destruct (isValidCategoryParam st (rawCategoryOf st)) eqn:Ev; [|discriminate].
  intros Hc. rewrite Hc in *.
  apply option_string_eqb_neq in Ee, Ea.
  assert (Hne : c <> "") by congruence.
  split; [reflexivity|]. split; [now apply isValidCategoryParam_In in Ev|].
  split; congruence.
Qed.

Lemma set_filter_next_strict (st : Page) :
  filter_state_strict (set_filter (nextCategoryOf st) (nextSortOf st) st).
Proof.
  split; [apply nextSortOf_isSortKey|].
  cbn [selectedCategory set_filter].
  destruct (nextCategoryOf st) as [c|] eqn:Ec; [|exact I].
  now destruct (nextCategoryOf_strict st c Ec) as (_ & H).
Qed.

Lemma writeStateToRoute_strict (st : Page) :
  filter_state_strict st -> filter_state_strict (writeStateToRoute st).
Proof. intros H. exact H. Qed.

Lemma rawOf_writeStateToRoute (st : Page) :
  rawCategoryOf (writeStateToRoute st) = selectedCategory st /\
  rawSortOf (writeStateToRoute st)
  = if String.eqb (selectedSort st) DEFAULT_SORT then None else Some (selectedSort st).
Proof.
  unfold rawCategoryOf, rawSortOf.
  rewrite writeStateToRoute_category, writeStateToRoute_sort.
  split; [now destruct (selectedCategory st)|].
  now destruct (String.eqb (selectedSort st) DEFAULT_SORT).
Qed.

(** On a strict filter state, reading what was just written changes
    nothing. *)
Lemma readRoute_writeStateToRoute (st : Page) :
  filter_state_strict st ->
  readRouteToStateAndClean (writeStateToRoute st) = writeStateToRoute st.
Proof.
  intros [Hsort Hcat].
  destruct (rawOf_writeStateToRoute st) as [HrawC HrawS].
  assert (Hns : nextSortOf (writeStateToRoute st) = selectedSort st).
  { unfold nextSortOf. rewrite HrawS.
    destruct (String.eqb_spec (selectedSort st) DEFAULT_SORT) as [E|E].
    - cbn. now rewrite E.
    - rewrite Hsort. reflexivity. }
  assert (Hvalid : forall c, selectedCategory st = Some c ->
            option_string_eqb (Some c) (Some "") = false /\
            option_string_eqb (Some c) (Some "all products") = false /\
            (0 <? length (categories (writeStateToRoute st)))%nat = true /\
            isValidCategoryParam (writeStateToRoute st) (Some c) = true).
  { intros c Hc. rewrite Hc in Hcat. destruct Hcat as (Hin & He & Hall).
    split; [apply option_string_eqb_neq; congruence|].
    split; [apply option_string_eqb_neq; congruence|].
    split.
    - apply length_pos_nonempty. intros E.
      change (categories (writeStateToRoute st)) with (categories st) in E.
      rewrite E in Hin. exact Hin.
    - now apply isValidCategoryParam_In. }
  assert (Hnc : nextCategoryOf (writeStateToRoute st) = selectedCategory st).
  { unfold nextCategoryOf. rewrite HrawC.
    destruct (selectedCategory st) as [c|] eqn:Ec; [|reflexivity].
    destruct (Hvalid c eq_refl) as (-> & -> & -> & ->). reflexivity. }
  assert (Hclean : needsCleanOf (writeStateToRoute st) = false).
  { unfold needsCleanOf. rewrite HrawC, HrawS.
    apply orb_false_iff. split.
    - destruct (selectedCategory st) as [c|] eqn:Ec.
      + destruct (Hvalid c eq_refl) as (-> & -> & -> & ->). reflexivity.
      + cbn. now rewrite andb_false_r.
    - destruct (String.eqb (selectedSort st) DEFAULT_SORT); [reflexivity|].
      rewrite Hsort. cbn [negb]. apply andb_false_r. }
  rewrite readRoute_unfold, Hclean, Hns, Hnc.
  apply (set_filter_same (writeStateToRoute st)).
Qed.

Lemma writeStateToRoute_query_twice (st : Page) :
  route_query (writeStateToRoute (writeStateToRoute st)) = route_query (writeStateToRoute st).
Proof.
  destruct st as [cat sort sy q cd].
  unfold writeStateToRoute, set_syncing, router_replace.
  cbn [route_query selectedCategory selectedSort categoriesData syncing].
  apply map_eq. intros k.
  destruct (String.eqb sort DEFAULT_SORT);
    destruct cat as [c|];
    destruct (decide (k = "sort")) as [Es|Hs];
    destruct (decide (k = "category")) as [Ec|Hc];
    try (rewrite Es in Ec; discriminate Ec); subst;
    repeat first
      [ rewrite lookup_delete_eq | rewrite lookup_insert_eq
      | rewrite lookup_delete_ne by congruence
      | rewrite lookup_insert_ne by congruence ];
    reflexivity.
Qed.

Lemma writeStateToRoute_eta (st : Page) :
  writeStateToRoute st
  = mkPage (selectedCategory st) (selectedSort st) false
           (route_query (writeStateToRoute st)) (categoriesData st).
Proof. reflexivity. Qed.

(** Writing twice is writing once. *)
Theorem writeStateToRoute_idempotent (st : Page) :
  writeStateToRoute (writeStateToRoute st) = writeStateToRoute st.
Proof.
  rewrite (writeStateToRoute_eta (writeStateToRoute st)).
  rewrite writeStateToRoute_query_twice.
  rewrite (writeStateToRoute_eta st) at 5. reflexivity.
Qed.

(** Reading twice is reading once: one pass settles the state and the
    query. *)
Theorem readRoute_idempotent (st : Page) :
  readRouteToStateAndClean (readRouteToStateAndClean st) = readRouteToStateAndClean st.
Proof.
  rewrite (readRoute_unfold st).
  pose proof (set_filter_next_strict st) as Hstrict.
  set (s1 := set_filter (nextCategoryOf st) (nextSortOf st) st) in *.
  destruct (needsCleanOf st) eqn:Hclean.
  - now apply readRoute_writeStateToRoute.
  - rewrite readRoute_unfold.
    change (needsCleanOf s1) with (needsCleanOf st).
    change (nextCategoryOf s1) with (nextCategoryOf st).
    change (nextSortOf s1) with (nextSortOf st).
    rewrite Hclean. reflexivity.
Qed.

(** After a read and the write that follows it, the page is settled: neither
    reading the route again nor writing the state again changes anything. *)
Theorem sync_settles (st : Page) :
  let settled := writeStateToRoute (readRouteToStateAndClean st) in
  readRouteToStateAndClean settled = settled /\
  writeStateToRoute settled = settled /\
  onRouteQueryChange settled = settled /\
  onFilterChange settled = settled.
Proof.
  cbv zeta.
  assert (Hstrict : filter_state_strict (readRouteToStateAndClean st)).
  { rewrite readRoute_unfold. pose proof (set_filter_next_strict st) as H.
    destruct (needsCleanOf st); [now apply writeStateToRoute_strict|exact H]. }
  pose proof (readRoute_writeStateToRoute _ Hstrict) as Hread.
  assert (Hwrite : writeStateToRoute (writeStateToRoute (readRouteToStateAndClean st))
                   = writeStateToRoute (readRouteToStateAndClean st)).
  { rewrite (writeStateToRoute_eta (writeStateToRoute _)).
    now rewrite writeStateToRoute_query_twice. }
  repeat split; [exact Hread|exact Hwrite| |].
  - unfold onRouteQueryChange. cbn [syncing writeStateToRoute set_syncing]. exact Hread.
  - unfold onFilterChange. cbn [syncing writeStateToRoute set_syncing]. exact Hwrite.
Qed.

Lemma writeStateToRoute_lookup_other (st : Page) (k : string) :
  k <> "category" -> k <> "sort" ->
  route_query (writeStateToRoute st) !! k = route_query st !! k.
Proof.
  intros Hc Hs. destruct st as [cat sort sy q cd].
  unfold writeStateToRoute, set_syncing, router_replace.
  cbn [route_query selectedCategory selectedSort].
  destruct (String.eqb sort DEFAULT_SORT), cat;
    repeat first [ rewrite lookup_delete_ne by congruence
                 | rewrite lookup_insert_ne by congruence ];
    reflexivity.
Qed.

(** Reading the route leaves every query parameter other than [category]
    and [sort] as it was, also when it cleans the query. *)
Theorem readRoute_other_params (st : Page) (k : string) :
  k <> "category" -> k <> "sort" ->
  route_query (readRouteToStateAndClean st) !! k = route_query st !! k.
Proof.
  intros Hc Hs. rewrite readRoute_unfold.
  destruct (needsCleanOf st); [|reflexivity].
  now rewrite writeStateToRoute_lookup_other.
Qed.

Lemma readRoute_other_params_witness :
  route_query (readRouteToStateAndClean pageBadParams) !! "page"
  = route_query pageBadParams !! "page".
Proof.
  apply (readRoute_other_params pageBadParams "page"); discriminate.
Defined.

(** A category selected by reading the route is the first value of the
    [category] parameter, a member of the category list, and neither the
    empty string nor "all products". *)
Theorem readRoute_selects_param (st : Page) (c : string) :
  selectedCategory (readRouteToStateAndClean st) = Some c ->
  asSingleString (route_query st !! "category") = Some c /\
  In c (categories st) /\ c <> "" /\ c <> "all products".
Proof.
  rewrite readRoute_unfold. intros H. apply nextCategoryOf_strict.
  now destruct (needsCleanOf st).
Qed.

Lemma readRoute_selects_param_witness :
  asSingleString
    (route_query (initialPage (route_query (writeStateToRoute pageLaptops))
                              (Some sampleCategories)) !! "category")
  = Some "laptops" /\
  In "laptops" sampleCategories /\ "laptops" <> "" /\ "laptops" <> "all products".
Proof.
  apply (readRoute_selects_param
           (initialPage (route_query (writeStateToRoute pageLaptops))
                        (Some sampleCategories)) "laptops").
  vm_compute. reflexivity.
Defined.

Lemma needsCleanOf_false (st : Page) :
  (rawSortOf st = None \/ rawSortOf st = Some "" \/ isSortKey (rawSortOf st) = true) ->
  (categories st = [] \/ rawCategoryOf st = None \/ rawCategoryOf st = Some ""
   \/ rawCategoryOf st = Some "all products"
   \/ exists c, rawCategoryOf st = Some c /\ In c (categories st)) ->
  needsCleanOf st = false.
Proof.
  intros Hs Hc. unfold needsCleanOf. apply orb_false_iff. split.
  - destruct Hc as [E|[E|[E|[E|(c & E & Hin)]]]]; rewrite ?E.
    + reflexivity.
    + cbn. now rewrite andb_false_r.
    + cbn. now rewrite !andb_false_r.
    + cbn. now rewrite !andb_false_r.
    + destruct (String.eqb_spec c "") as [->|Hne].
      * cbn. now rewrite !andb_false_r.
      * rewrite (proj2 (isValidCategoryParam_In st c Hne) Hin).
        cbn [negb]. apply andb_false_r.
  - destruct Hs as [E|[E|E]]; rewrite ?E; try reflexivity.
    cbn [negb]. apply andb_false_r.
Qed.

(** A query whose parameters are absent, empty or valid is not rewritten:
    the URL changes only to drop an unknown sort or category. *)
Theorem readRoute_keeps_valid_query (st : Page) :
  let rawCategory := asSingleString (route_query st !! "category") in
  let rawSort := asSingleString (route_query st !! "sort") in
  (rawSort = None \/ rawSort = Some "" \/ isSortKey rawSort = true) ->
  (categories st = [] \/ rawCategory = None \/ rawCategory = Some ""
   \/ rawCategory = Some "all products"
   \/ exists c, rawCategory = Some c /\ In c (categories st)) ->
  route_query (readRouteToStateAndClean st) = route_query st.
Proof.
  cbv zeta. intros Hs Hc.
  rewrite readRoute_unfold, (needsCleanOf_false st Hs Hc). reflexivity.
Qed.

Lemma readRoute_keeps_valid_query_witness :
  route_query (readRouteToStateAndClean pageDeferred) = route_query pageDeferred.
Proof.
  apply (readRoute_keeps_valid_query pageDeferred).
  - left. reflexivity.
  - left. reflexivity.
Defined.

Lemma categoriesArrive_unfold (cs : list string) (st : Page) :
  syncing st = false ->
  categoriesArrive cs st
  = readRouteToStateAndClean
      (mkPage (selectedCategory st) (selectedSort st) false (route_query st) (Some cs)).
Proof.
  intros Hsync. unfold categoriesArrive, onCategoriesLoaded.
  cbn [categoriesData syncing]. now rewrite Hsync.
Qed.

(** Deferred validation: a category parameter read before the categories
    have arrived selects nothing and stays in the query; when the
    categories arrive it is selected if it is one of them, and removed if it
    is not. *)
Theorem category_validated_on_arrival (st : Page) (c : string) (cs : list string) :
  let rawSort := asSingleString (route_query st !! "sort") in
  let st1 := readRouteToStateAndClean st in
  categories st = [] ->
  syncing st = false ->
  asSingleString (route_query st !! "category") = Some c ->
  c <> "" -> c <> "all products" ->
  (rawSort = None \/ rawSort = Some "" \/ isSortKey rawSort = true) ->
  selectedCategory st1 = None /\
  route_query st1 = route_query st /\
  (In c cs ->
   selectedCategory (categoriesArrive cs st1) = Some c /\
   route_query (categoriesArrive cs st1) = route_query st) /\
  (cs <> [] -> ~ In c cs ->
   selectedCategory (categoriesArrive cs st1) = None /\
   route_query (categoriesArrive cs st1) !! "category" = None).
Proof.
  cbv zeta. intros Hcats Hsync Hraw Hne Hall Hsort.
  assert (Hclean : needsCleanOf st = false)
    by (apply needsCleanOf_false; [exact Hsort|now left]).
  assert (Hnc : nextCategoryOf st = None).
  { unfold nextCategoryOf. rewrite Hcats.
    now destruct (_ || _ || _). }
  rewrite readRoute_unfold, Hclean, Hnc.
  set (st1 := set_filter None (nextSortOf st) st).
  split; [reflexivity|]. split; [reflexivity|].
  rewrite (categoriesArrive_unfold cs st1 Hsync).
  set (st2 := mkPage _ _ _ _ _).
  assert (HrawC : rawCategoryOf st2 = Some c) by exact Hraw.
  assert (HrawS : rawSortOf st2 = rawSortOf st) by reflexivity.
  assert (Hsent : option_string_eqb (Some c) None
                  || option_string_eqb (Some c) (Some "")
                  || option_string_eqb (Some c) (Some "all products") = false).
  { cbn [option_string_eqb orb].
    apply orb_false_iff. split; apply String.eqb_neq; congruence. }
  split.
  - intros Hin.
    assert (Hclean2 : needsCleanOf st2 = false).
    { apply needsCleanOf_false; [rewrite HrawS; exact Hsort|].
      right. right. right. right. exists c. split; [exact HrawC|exact Hin]. }
    rewrite readRoute_unfold, Hclean2. split; [|reflexivity].
    cbn [selectedCategory set_filter]. unfold nextCategoryOf.
    rewrite HrawC, Hsent.
    change (categories st2) with cs.
    rewrite (proj2 (length_pos_nonempty cs)) by (intros ->; exact Hin).
    now rewrite (proj2 (isValidCategoryParam_In st2 c Hne) Hin).
  - intros Hcs Hnin.
    assert (Hinvalid : isValidCategoryParam st2 (Some c) = false).
    { apply not_true_iff_false. intros Hv.
      now apply (isValidCategoryParam_In st2 c Hne) in Hv. }
    assert (Hnc2 : nextCategoryOf st2 = None).
    { unfold nextCategoryOf. rewrite HrawC, Hsent, Hinvalid.
      now destruct (0 <? _)%nat. }
    assert (Hclean2 : needsCleanOf st2 = true).
    { unfold needsCleanOf. rewrite HrawC, Hinvalid.
      change (categories st2) with cs.
      rewrite (proj2 (length_pos_nonempty cs) Hcs).
      apply orb_false_iff in Hsent. destruct Hsent as [Hsent ->].
      apply orb_false_iff in Hsent. destruct Hsent as [-> ->]. reflexivity. }
    rewrite readRoute_unfold, Hclean2, Hnc2.
    split; [reflexivity|].
    now rewrite writeStateToRoute_category.
Qed.

Lemma category_validated_on_arrival_witness :
  selectedCategory (readRouteToStateAndClean pageDeferred) = None /\
  route_query (readRouteToStateAndClean pageDeferred) = route_query pageDeferred /\
  (In "laptops" sampleCategories ->
   selectedCategory (categoriesArrive sampleCategories (readRouteToStateAndClean pageDeferred))
     = Some "laptops" /\
   route_query (categoriesArrive sampleCategories (readRouteToStateAndClean pageDeferred))
     = route_query pageDeferred) /\
  (sampleCategories <> [] -> ~ In "laptops" sampleCategories ->
   selectedCategory (categoriesArrive sampleCategories (readRouteToStateAndClean pageDeferred))
     = None /\
   route_query (categoriesArrive sampleCategories (readRouteToStateAndClean pageDeferred))
     !! "category" = None).
Proof.
  apply (category_validated_on_arrival pageDeferred "laptops" sampleCategories);
    try reflexivity; try discriminate.
  left. reflexivity.
Defined.

(** While the category list is empty, cleaning an unknown sort writes the
    state back with no category: the [category] parameter leaves the query
    together with the [sort] parameter, and the categories that arrive later
    find nothing to select. *)
Theorem unknown_sort_drops_category (st : Page) (cs : list string) :
  let rawSort := asSingleString (route_query st !! "sort") in
  let st1 := readRouteToStateAndClean st in
  categories st = [] ->
  rawSort <> None -> rawSort <> Some "" -> isSortKey rawSort = false ->
  route_query st1 !! "sort" = None /\
  route_query st1 !! "category" = None /\
  selectedCategory (categoriesArrive cs st1) = None.
Proof.
  cbv zeta. intros Hcats Hn He Hkey.
  assert (Hclean : needsCleanOf st = true).
  { unfold needsCleanOf. fold (rawSortOf st) in Hn, He, Hkey. rewrite Hkey.
    rewrite (proj2 (option_string_eqb_neq _ _) Hn).
    rewrite (proj2 (option_string_eqb_neq _ _) He).
    apply orb_true_r. }
  assert (Hnc : nextCategoryOf st = None).
  { unfold nextCategoryOf. rewrite Hcats. now destruct (_ || _ || _). }
  assert (Hns : nextSortOf st = DEFAULT_SORT).
  { unfold nextSortOf. fold (rawSortOf st) in Hkey. now rewrite Hkey. }
  rewrite readRoute_unfold, Hclean, Hnc, Hns.
  set (st1 := writeStateToRoute _).
  assert (Hq : route_query st1 !! "category" = None)
    by (unfold st1; now rewrite writeStateToRoute_category).
  split; [unfold st1; now rewrite writeStateToRoute_sort|].
  split; [exact Hq|].
  rewrite (categoriesArrive_unfold cs st1 eq_refl).
  set (st2 := mkPage _ _ _ _ _).
  rewrite readRoute_unfold.
  assert (Hnc2 : nextCategoryOf st2 = None).
  { unfold nextCategoryOf, rawCategoryOf.
    change (route_query st2) with (route_query st1). now rewrite Hq. }
  now destruct (needsCleanOf st2); cbn [selectedCategory writeStateToRoute
    set_syncing router_replace set_filter]; rewrite ?Hnc2.
Qed.

Lemma unknown_sort_drops_category_witness :
  route_query (readRouteToStateAndClean pagePendingCategory) !! "sort" = None /\
  route_query (readRouteToStateAndClean pagePendingCategory) !! "category" = None /\
  selectedCategory
    (categoriesArrive sampleCategories (readRouteToStateAndClean pagePendingCategory))
  = None.
Proof.
  apply (unknown_sort_drops_category pagePendingCategory sampleCategories);
    try reflexivity; discriminate.
Defined.

(** The category [select] shows the option that was picked: after the
    handler ran on a non-empty option value, the value bound to the
    [select] is that value. *)
Theorem onCategoryChange_shown (st : Page) (v : string) :
  v <> "" -> categorySelectValue (onCategoryChange v st) = v.
Proof.
  intros Hv. unfold categorySelectValue, onCategoryChange.
  destruct (String.eqb_spec v "all products") as [->|Hall]; [reflexivity|].
  cbn [selectedCategory set_filter falsy default].
  now destruct (String.eqb_spec v "").
Qed.

Lemma onCategoryChange_shown_witness :
  categorySelectValue (onCategoryChange "laptops" pageLaptops) = "laptops".
Proof.
  apply (onCategoryChange_shown pageLaptops "laptops"). discriminate.
Defined.

Lemma reachable_filter_state_ok_witness :
  filter_state_ok
    (onSortChange "price-asc"
       (onCategoryChange "laptops"
          (readRouteToStateAndClean (initialPage ∅ (Some sampleCategories))))).
Proof.
  apply (reachable_filter_state_ok ∅ (Some sampleCategories)).
  eapply rtc_l; [apply step_read|].
  eapply rtc_l; [apply (step_category _ "laptops"); right; right; left; reflexivity|].
  eapply rtc_l; [apply (step_sort _ "price-asc"); left; reflexivity|].
  apply rtc_refl.
Defined.

(** ** The query function and the view *)

(** The request of the products query agrees with what the category
    [select] shows: it asks for all products exactly when the [select]
    shows "all products". *)
Theorem productsQueryFn_all_products
    (fetch : string -> Promise (Response ProductsResponse)) (st : Page) :
  selectedCategory st <> Some "all products" ->
  (fst (productsQueryFn fetch st) = [BASE ++ "/products?limit=100"] <->
   categorySelectValue st = "all products").
Proof.
  intros Hall. unfold productsQueryFn, categorySelectValue.
  destruct (falsy (selectedCategory st)) eqn:Ef.
  - split; [reflexivity|]. intros _. now apply getProducts_all_url.
  - destruct (selectedCategory st) as [c|]; [|discriminate Ef].
    cbn [falsy] in Ef. apply String.eqb_neq in Ef.
    rewrite (getProducts_category_url fetch c Ef).
    change (default "" (Some c)) with c.
    split.
    + intros H. now apply category_url_not_all in H.
    + intros ->. now contradiction Hall.
Qed.

Lemma productsQueryFn_all_products_witness :
  fst (productsQueryFn sampleServer pageEmptyCategory) = [BASE ++ "/products?limit=100"] <->
  categorySelectValue pageEmptyCategory = "all products".
Proof.
  apply (productsQueryFn_all_products sampleServer pageEmptyCategory). discriminate.
Defined.

(** What is rendered, for a valid sort key: the error message whenever the
    query failed; otherwise the grid, with between one and ten cards,
    whenever there are products, also while a refetch is loading; and with
    no products the skeletons while loading and the empty message
    otherwise. *)
Theorem pageView_cases (localeCompare : string -> string -> number)
    (isError isLoading : bool) (data : option (list Product)) (sort : SortKey) :
  isSortKey (Some sort) = true ->
  exists visible,
    visibleProducts localeCompare data sort = Some visible /\
    length visible = Nat.min 10 (length (default [] data)) /\
    pageView localeCompare isError isLoading data sort
    = Some (if isError then ErrorView
            else match default [] data with
                 | [] => if isLoading then SkeletonView else EmptyView
                 | _ :: _ => GridView visible
                 end).
Proof.
  intros Hsort.
  destruct (sortProducts_is_Some localeCompare (default [] data) sort Hsort)
    as [sorted Hs].
  pose proof (Permutation_length (sortProducts_perm _ _ _ _ Hs)) as Hlen.
  exists (firstn 10 sorted).
  assert (Hvis : visibleProducts localeCompare data sort = Some (firstn 10 sorted)).
  { unfold visibleProducts. rewrite Hs.
    exact (f_equal Some (Array_slice_0 sorted 10)). }
  assert (Hl : length (firstn 10 sorted) = Nat.min 10 (length (default [] data)))
    by (rewrite length_firstn, Hlen; reflexivity).
  split; [exact Hvis|]. split; [exact Hl|].
  unfold pageView. rewrite Hvis, Hl.
  destruct isError; [reflexivity|].
  destruct (default [] data) as [|p ps]; cbn [length Nat.ltb Nat.leb negb andb].
  - destruct isLoading; reflexivity.
  - rewrite andb_false_r. reflexivity.
Qed.

Lemma pageView_cases_witness :
  exists visible,
    visibleProducts ordinalCompare (Some sampleProducts) "price-asc" = Some visible /\
    length visible = Nat.min 10 (length (default [] (Some sampleProducts))) /\
    pageView ordinalCompare false true (Some sampleProducts) "price-asc"
    = Some (GridView visible).
Proof.
  apply (pageView_cases ordinalCompare false true (Some sampleProducts) "price-asc").
  reflexivity.
Defined.
